(** * Keyshare server core (irmago, package [keysharecore])

    A shallow embedding of [internal/keysharecore/operations.go] and a
    verification of the properties its specification states about access
    tokens, PIN changes, auth challenges and proof commitments.

    Layout:
    - [Go]         : values of the Go runtime and standard library used by
                     the code (errors, byte slices,
                     [subtle.ConstantTimeCompare], [big.Int.BitLen],
                     little-endian [uint64]);
    - [JWT]        : the part of [github.com/golang-jwt/jwt/v4] the code
                     calls;
    - [KeyshareEnv]: the collaborators the code only calls (sealed storage,
                     base64, the JWT wire format and signatures, gabi,
                     ECDSA), with the laws the proofs need;
    - [Keyshare]   : the operations of [operations.go], in a state-and-error
                     monad over the [Core] and the entropy source;
    - [Toy], [Scenario]: an executable instance of [KeyshareEnv] and
                     concrete requests;
    - the theorems, each followed by its run in the toy environment.

    Conventions of the model:
    - the clock is an argument: a call reads [time.Now()] once, and the
      readings the JWT library takes during that call are the same
      reading;
    - [crypto/rand] is a tape of bytes in the world; a read takes the next
      bytes and fails when the tape is too short;
    - a mutex-guarded map operation is one step; calls are run one after
      the other;
    - [usersecrets.go] and the declaration of [Core] are not among the
      sources; what the operations use of them is modelled from the
      specification and marked as such. *)

From Stdlib Require Import ZArith NArith Lia Bool List.
From Stdlib Require Import Strings.String Strings.Ascii Strings.Byte.
From stdpp Require Import base option list gmap strings.

#[local] Open Scope Z_scope.
#[local] Open Scope string_scope.

(* ===================================================================== *)
(** * Go values                                                           *)
(* ===================================================================== *)

Module Go.

(** A Go byte slice. *)
Abbreviation bytes := (list byte).

(** The package-level error values of [operations.go] (lines 22-31).  Every
    other [error] the code can return (from [errors.New] at the call site or
    from a library) is an [ErrOther] carrying its message. *)
Inductive error : Type :=
  | ErrInvalidPin
  | ErrPinTooLong
  | ErrInvalidChallenge
  | ErrInvalidJWT
  | ErrExpiredJWT
  | ErrKeyNotFound
  | ErrUnknownCommit
  | ErrChallengeResponseRequired
  | ErrOther (msg : string).

(** A Go result pair [(v, err)]: [Ok v] is [(v, nil)], [Err e] is
    [(zero, e)]. *)
Inductive result (A : Type) : Type :=
  | Ok (a : A)
  | Err (e : error).
Arguments Ok {A} a.
Arguments Err {A} e.

Definition is_Ok {A} (r : result A) : bool :=
  match r with Ok _ => true | Err _ => false end.

Definition byteZ (b : byte) : Z := Z.of_N (Byte.to_N b).

(** [subtle.ConstantTimeByteEq(x, y uint8) int]:
    [int((uint32(x^y) - 1) >> 31)], the subtraction wrapping at 32 bits. *)
Definition ConstantTimeByteEq (x y : Z) : Z :=
  Z.shiftr ((Z.lxor x y - 1) mod 2 ^ 32) 31.

(** One round of the loop of [subtle.ConstantTimeCompare]:
    [v |= x[i] ^ y[i]]. *)
Definition xorAcc (v : Z) (xy : byte * byte) : Z :=
  Z.lor v (Z.lxor (byteZ (fst xy)) (byteZ (snd xy))).

(** [subtle.ConstantTimeCompare(x, y []byte) int]: 0 when the lengths
    differ, else the accumulated differences compared with 0. *)
Definition ConstantTimeCompare (x y : bytes) : Z :=
  if negb (Nat.eqb (length x) (length y)) then 0
  else ConstantTimeByteEq (fold_left xorAcc (combine x y) 0) 0.

(** [big.Int.BitLen]: the length of the absolute value in bits, 0 for 0. *)
Definition BitLen (x : Z) : Z :=
  if Z.eqb x 0 then 0 else Z.log2 (Z.abs x) + 1.

(** [binary.LittleEndian] decoding of a [uint64] from the bytes read. *)
Fixpoint LittleEndian (bs : bytes) : Z :=
  match bs with
  | [] => 0
  | b :: bs' => byteZ b + 256 * LittleEndian bs'
  end.

(** [string(id)] for [id []byte]. *)
Definition string_of_bytes (b : bytes) : string := string_of_list_byte b.

End Go.
Export Go.

(* ===================================================================== *)
(** * JSON web tokens: the part of golang-jwt v4 the code relies on       *)
(* ===================================================================== *)

Module JWT.

(** [jwt.SigningMethod]: the registered methods are singletons compared by
    identity ([token.Method != jwt.SigningMethodRS256]);
    [SigningMethodOther] stands for the registered methods not listed.  A
    header naming an unregistered method does not parse at all. *)
Inductive SigningMethod : Type :=
  | SigningMethodRS256
  | SigningMethodES256
  | SigningMethodHS256
  | SigningMethodNone
  | SigningMethodOther (alg : string).

Definition isRS256 (m : SigningMethod) : bool :=
  match m with SigningMethodRS256 => true | _ => false end.

(** Values of a decoded JSON object.  Numbers are the integers the code
    writes ([Unix] seconds); the decoder's [float64] is not modelled.
    Arrays and objects, which the code never inspects, are kept as their
    JSON text. *)
Inductive JSON : Type :=
  | JNull
  | JBool (b : bool)
  | JNumber (n : Z)
  | JString (s : string)
  | JRaw (text : string).

(** [jwt.MapClaims] is [map[string]interface{}]. *)
Abbreviation MapClaims := (gmap string JSON).

(** [jwt.Token], without the raw string and the [Valid] flag. *)
Record Token : Type := mkToken {
  Method : SigningMethod;
  Header : gmap string JSON;
  Claims : MapClaims;
}.

(** [crypto/ecdsa.PublicKey] on the fixed curve and [crypto/rsa] keys. *)
Record ecdsa_PublicKey : Type := { ecdsa_X : Z; ecdsa_Y : Z }.
Record rsa_PublicKey : Type := { rsa_N : Z; rsa_E : Z }.
Record rsa_PrivateKey : Type := { rsa_Public : rsa_PublicKey; rsa_D : Z }.

(** What a [jwt.Keyfunc] hands back as [interface{}]. *)
Inductive Key : Type :=
  | RSAKey (k : rsa_PublicKey)
  | ECDSAKey (k : ecdsa_PublicKey).

(** [verifyExp], [verifyIat], [verifyNbf] of golang-jwt v4 (from v4.1,
    on [time.Time]) on an optional time: an unset time verifies exactly
    when it is not required, an expiry equal to the clock has passed. *)
Definition verifyExp (exp : option Z) (now : Z) (required : bool) : bool :=
  match exp with
  | None => negb required
  | Some e => Z.ltb now e               (* now.Before(exp) *)
  end.

Definition verifyIat (iat : option Z) (now : Z) (required : bool) : bool :=
  match iat with
  | None => negb required
  | Some i => Z.leb i now               (* now.After(iat) || now.Equal(iat) *)
  end.

Definition verifyNbf (nbf : option Z) (now : Z) (required : bool) : bool :=
  match nbf with
  | None => negb required
  | Some n => Z.leb n now
  end.

(** The shape shared by [MapClaims.VerifyExpiresAt], [VerifyIssuedAt] and
    [VerifyNotBefore]: a missing claim verifies when not required, a number
    equal to 0 counts as unset, any other JSON type fails. *)
Definition verifyTimeClaim (check : option Z -> Z -> bool -> bool)
    (m : MapClaims) (name : string) (cmp : Z) (req : bool) : bool :=
  match m !! name with
  | None => negb req
  | Some (JNumber v) => if Z.eqb v 0 then check None cmp req
                        else check (Some v) cmp req
  | Some _ => false
  end.

Definition VerifyExpiresAt (m : MapClaims) (cmp : Z) (req : bool) : bool :=
  verifyTimeClaim verifyExp m "exp" cmp req.

Definition VerifyIssuedAt (m : MapClaims) (cmp : Z) (req : bool) : bool :=
  verifyTimeClaim verifyIat m "iat" cmp req.

Definition VerifyNotBefore (m : MapClaims) (cmp : Z) (req : bool) : bool :=
  verifyTimeClaim verifyNbf m "nbf" cmp req.

(** [MapClaims.Valid()]: [true] stands for a [nil] error.  The three time
    claims are checked against the clock, none of them required. *)
Definition Valid (m : MapClaims) (now : Z) : bool :=
  VerifyExpiresAt m now false
  && VerifyIssuedAt m now false
  && VerifyNotBefore m now false.

(** The three segments of a compact token after [Parser.ParseUnverified]:
    the decoded token, the signing string and the signature. *)
Record Parsed : Type := mkParsed {
  parsedToken : Token;
  signingString : string;
  signature : bytes;
}.

End JWT.
Export JWT.

(* ===================================================================== *)
(** * User secrets and the collaborators of the core                      *)
(* ===================================================================== *)

(** [UserSecrets]: the encrypted blob, a byte slice. *)
Abbreviation UserSecrets := (list byte).

(** Modelled from the spec: the declaration of [unencryptedUserSecrets] is
    in [usersecrets.go], which is not among the sources.  Section 3: "a
    fixed-width PIN hash, the attribute-scheme keyshare secret (a large
    integer), a 32-byte token-id, and an optional client public key".  The
    field names are the ones [operations.go] uses. *)
Record unencryptedUserSecrets : Type := mkSecrets {
  Pin : bytes;
  KeyshareSecret : Z;
  ID : bytes;
  PublicKey : option ecdsa_PublicKey;
}.

(** [irma.PublicKeyIdentifier]: an issuer identifier and a key counter. *)
Abbreviation PublicKeyIdentifier := (string * N)%type.

(** [gabikeys.PublicKey]: the numbers of an Idemix public key. *)
Record GabiPublicKey : Type := {
  gabi_N : Z;
  gabi_Z : Z;
  gabi_S : Z;
  gabi_R : list Z;
}.

(** [gabi.ProofPCommitment]: the two commitment values. *)
Record ProofPCommitment : Type := { commitP : Z; commitPcommit : Z }.

(** What [operations.go] calls and does not define.  Randomised
    collaborators take the unread entropy and return what is left of it. *)
Class KeyshareEnv : Type := {
  (** [gabikeys.DefaultSystemParameters[1024].Lh] *)
  Lh : N;
  (** the width of the PIN field and the stored form of a PIN *)
  pinWidth : nat;
  pinHash : string -> bytes;
  (** authenticated encryption under the storage key *)
  seal : bytes -> bytes -> unencryptedUserSecrets -> result (UserSecrets * bytes);
  unseal : bytes -> UserSecrets -> result unencryptedUserSecrets;
  (** [base64.StdEncoding] *)
  EncodeToString : bytes -> string;
  DecodeString : string -> option bytes;
  (** the compact serialisation and the signature schemes of the JWT
      library *)
  ParseUnverified : string -> option Parsed;
  Verify : SigningMethod -> string -> bytes -> Key -> bool;
  SignedString : Token -> rsa_PrivateKey -> result string;
  (** [json.Marshal] of [irma.KeyshareChallengeData] and [signed.Verify] *)
  marshalChallengeData : bytes -> string -> bytes;
  signed_Verify : option ecdsa_PublicKey -> bytes -> bytes -> result unit;
  (** gabi *)
  NewKeyshareSecret : bytes -> result (Z * bytes);
  NewKeyshareCommitments :
    Z -> list GabiPublicKey -> bytes -> result (Z * list ProofPCommitment * bytes);
  KeyshareResponse : Z -> Z -> Z -> GabiPublicKey -> JSON;

  (** What was sealed under a key opens under it. *)
  unseal_seal : forall k rnd s b rnd',
    seal k rnd s = Ok (b, rnd') -> unseal k b = Ok s;
  (** Base64 decoding inverts encoding. *)
  Decode_Encode : forall b, DecodeString (EncodeToString b) = Some b;
  (** A token signed by the library parses back to itself, and its RS256
      signature verifies under the public half of the signing key. *)
  Parse_Signed : forall tok sk str,
    SignedString tok sk = Ok str ->
    exists ss sg,
      ParseUnverified str = Some (mkParsed tok ss sg) /\
      (Method tok = SigningMethodRS256 ->
       Verify SigningMethodRS256 ss sg (RSAKey (rsa_Public sk)) = true);
}.

(* ===================================================================== *)
(** * The core                                                            *)
(* ===================================================================== *)

Section Keyshare.

Context `{Env : KeyshareEnv}.

(** Modelled from the spec: the declaration of [Core] is not among the
    sources.  The fields are the ones [operations.go] reads and writes; the
    storage key is the "process-wide symmetric key" of section 3.  The two
    mutexes guard single map operations and have no sequential content. *)
Record Core : Type := mkCore {
  decryptionKey : bytes;
  jwtPrivateKey : rsa_PrivateKey;
  jwtPrivateKeyID : Z;
  jwtIssuer : string;
  jwtPinExpiry : Z;
  commitmentData : gmap Z Z;
  authChallenges : gmap string bytes;
  trustedKeys : gmap PublicKeyIdentifier GabiPublicKey;
}.

Definition set_commitmentData (f : gmap Z Z -> gmap Z Z) (c : Core) : Core :=
  mkCore (decryptionKey c) (jwtPrivateKey c) (jwtPrivateKeyID c) (jwtIssuer c)
         (jwtPinExpiry c) (f (commitmentData c)) (authChallenges c)
         (trustedKeys c).

Definition set_authChallenges (f : gmap string bytes -> gmap string bytes)
    (c : Core) : Core :=
  mkCore (decryptionKey c) (jwtPrivateKey c) (jwtPrivateKeyID c) (jwtIssuer c)
         (jwtPinExpiry c) (commitmentData c) (f (authChallenges c))
         (trustedKeys c).

(** What a call can read and change: the core and the bytes [crypto/rand]
    has not handed out yet. *)
Record World : Type := mkWorld {
  core : Core;
  entropy : bytes;
}.

(** ** The state-and-error monad

    A Go method on [*Core] returning [(v, error)]: the world after the call
    is returned on both outcomes, since a map entry deleted before a later
    failure stays deleted. *)
Definition M (A : Type) : Type := World -> result A * World.

#[global] Instance M_ret : MRet M := fun A a w => (Ok a, w).
#[global] Instance M_bind : MBind M := fun A B f m w =>
  match m w with
  | (Ok a, w') => f a w'
  | (Err e, w') => (Err e, w')
  end.

Definition fail {A} (e : error) : M A := fun w => (Err e, w).
Definition lift {A} (r : result A) : M A := fun w => (r, w).
Definition getCore : M Core := fun w => (Ok (core w), w).
Definition modifyCore (f : Core -> Core) : M unit :=
  fun w => (Ok tt, mkWorld (f (core w)) (entropy w)).

(** [rand.Read(buf)] for [len(buf) = n]: the next [n] bytes, or an error
    when the source cannot deliver them. *)
Definition rand_Read (n : nat) : M bytes :=
  fun w =>
    if Nat.ltb (length (entropy w)) n
    then (Err (ErrOther "rand: read failed"), w)
    else (Ok (take n (entropy w)), mkWorld (core w) (drop n (entropy w))).

(** A randomised collaborator run on the entropy of the world. *)
Definition withEntropy {A} (f : bytes -> result (A * bytes)) : M A :=
  fun w => match f (entropy w) with
           | Ok (a, rest) => (Ok a, mkWorld (core w) rest)
           | Err e => (Err e, w)
           end.

(** ** [usersecrets.go] *)

(** Modelled from the spec: [setPin] is in [usersecrets.go].  Section 4.1:
    "the PIN hash size is fixed and input longer than that size is rejected
    before hashing"; section 3: "fail with PinTooLong if input exceeds the
    container's fixed width". *)
Definition setPin (s : unencryptedUserSecrets) (pin : string)
    : result unencryptedUserSecrets :=
  if Nat.ltb pinWidth (String.length pin) then Err ErrPinTooLong
  else Ok (mkSecrets (pinHash pin) (KeyshareSecret s) (ID s) (PublicKey s)).

(** Modelled from the spec: [verifyPin] is in [usersecrets.go].  Section
    4.1: "constant-time compares PIN.  On mismatch returns InvalidPin". *)
Definition verifyPin (s : unencryptedUserSecrets) (pin : string) : result unit :=
  if Z.eqb (ConstantTimeCompare (Pin s) (pinHash pin)) 1 then Ok tt
  else Err ErrInvalidPin.

(** Modelled from the spec: [setKeyshareSecret] is in [usersecrets.go];
    it stores "the attribute-scheme keyshare secret (a large integer)". *)
Definition setKeyshareSecret (s : unencryptedUserSecrets) (secret : Z)
    : result unencryptedUserSecrets :=
  Ok (mkSecrets (Pin s) secret (ID s) (PublicKey s)).

(** Modelled from the spec: [setID] is in [usersecrets.go]; the token-id
    is "a 32-byte token-id" (section 3), so another length is refused. *)
Definition setID (s : unencryptedUserSecrets) (id : bytes)
    : result unencryptedUserSecrets :=
  if Nat.eqb (length id) 32
  then Ok (mkSecrets (Pin s) (KeyshareSecret s) id (PublicKey s))
  else Err (ErrOther "invalid token id").

(** [s.PublicKey = pk] *)
Definition setPublicKey (s : unencryptedUserSecrets)
    (pk : option ecdsa_PublicKey) : unencryptedUserSecrets :=
  mkSecrets (Pin s) (KeyshareSecret s) (ID s) pk.

(** Modelled from the spec: [encryptUserSecrets] and [decryptUserSecrets]
    are in [usersecrets.go].  Section 3: "authenticated encryption under a
    process-wide symmetric key; any tamper or wrong key yields decryption
    failure". *)
Definition encryptUserSecrets (s : unencryptedUserSecrets) : M UserSecrets :=
  c ← getCore;
  withEntropy (fun rnd => seal (decryptionKey c) rnd s).

Definition decryptUserSecrets (c : Core) (secrets : UserSecrets)
    : result unencryptedUserSecrets :=
  unseal (decryptionKey c) secrets.

(** Modelled from the spec: [decryptUserSecretsIfPinOK] is in
    [usersecrets.go].  Section 4.1: "Decrypts, then constant-time compares
    PIN.  On mismatch returns InvalidPin". *)
Definition decryptUserSecretsIfPinOK (c : Core) (secrets : UserSecrets)
    (pin : string) : result unencryptedUserSecrets :=
  match decryptUserSecrets c secrets with
  | Err e => Err e
  | Ok s => match verifyPin s pin with
            | Err e => Err e
            | Ok _ => Ok s
            end
  end.

(** ** The JWT parser

    [Parser.ParseWithClaims] of golang-jwt v4 with the default options:
    split and decode the token (the claims go into the caller's claims
    value), ask the key function for the key, validate the claims against
    the clock, verify the signature.  Any failure is an error of the
    library, which the callers only test against [nil] or pass on. *)
Definition ParseWithClaims {C : Type} (decode : MapClaims -> option C)
    (valid : MapClaims -> Z -> bool) (now : Z) (tokenString : string)
    (keyFunc : Token -> result Key) : result (Token * C) :=
  match ParseUnverified tokenString with
  | None => Err (ErrOther "token contains an invalid number of segments")
  | Some p =>
      let token := parsedToken p in
      match decode (Claims token) with
      | None => Err (ErrOther "token is malformed")
      | Some claims =>
          match keyFunc token with
          | Err _ => Err (ErrOther "token is unverifiable")
          | Ok key =>
              if valid (Claims token) now
                 && Verify (Method token) (signingString p) (signature p) key
              then Ok (token, claims)
              else Err (ErrOther "token is invalid")
          end
      end
  end.

(** [jwt.Parse]: the claims are a [jwt.MapClaims]. *)
Definition Parse (now : Z) (tokenString : string)
    (keyFunc : Token -> result Key) : result Token :=
  match ParseWithClaims Some Valid now tokenString keyFunc with
  | Ok (token, _) => Ok token
  | Err e => Err e
  end.

(** [jwt.NewWithClaims(method, claims)] followed by
    [token.Header["kid"] = kid]. *)
Definition algName (m : SigningMethod) : string :=
  match m with
  | SigningMethodRS256 => "RS256"
  | SigningMethodES256 => "ES256"
  | SigningMethodHS256 => "HS256"
  | SigningMethodNone => "none"
  | SigningMethodOther alg => alg
  end.

Definition NewWithClaims (m : SigningMethod) (claims : MapClaims) (kid : Z)
    : Token :=
  mkToken m
    (<["kid" := JNumber kid]>
       (<["alg" := JString (algName m)]> {["typ" := JString "JWT"]}))
    claims.

(** Modelled from the spec: [irma.KeyshareChangePinClaims] is declared
    outside the sources.  Section 4.4: the token is "signed{oldPin,newPin}";
    section 6 names the wire fields [oldpin] and [newpin].  A field that is
    absent decodes to the empty string, a field of another JSON type is a
    decoding error; the registered time claims are validated as those of a
    [MapClaims]. *)
Record KeyshareChangePinClaims : Type := {
  OldPin : string;
  NewPin : string;
}.

Definition stringField (m : MapClaims) (name : string) : option string :=
  match m !! name with
  | None => Some ""
  | Some (JString s) => Some s
  | Some _ => None
  end.

Definition decodeChangePinClaims (m : MapClaims)
    : option KeyshareChangePinClaims :=
  match stringField m "oldpin", stringField m "newpin" with
  | Some o, Some n => Some {| OldPin := o; NewPin := n |}
  | _, _ => None
  end.

(** ** [operations.go] *)

(** [authJWT] (lines 78-89); [now] is [time.Now().Unix()], and the
    lifetime is short enough for [time.Duration] not to overflow. *)
Definition authClaims (c : Core) (s : unencryptedUserSecrets) (now : Z)
    : MapClaims :=
  <["iss" := JString (jwtIssuer c)]>
    (<["sub" := JString "auth_tok"]>
       (<["iat" := JNumber now]>
          (<["exp" := JNumber (now + jwtPinExpiry c)]>
             {["token_id" := JString (EncodeToString (ID s))]}))).

Definition authJWT (c : Core) (now : Z) (s : unencryptedUserSecrets)
    : result string :=
  let token := NewWithClaims SigningMethodRS256 (authClaims c s now)
                 (jwtPrivateKeyID c) in
  SignedString token (jwtPrivateKey c).

(** [challenge] (lines 298-305): the stored challenge, [None] for Go's
    [nil] slice of an absent key; the entry is deleted either way. *)
Definition challenge (id : bytes) : M (option bytes) :=
  c ← getCore;
  let stringID := string_of_bytes id in
  let challenge := authChallenges c !! stringID in
  _ ← modifyCore (set_authChallenges (delete stringID));
  mret challenge.

(** [verifyChallengeResponse] (lines 91-107). *)
Definition verifyChallengeResponse (s : unencryptedUserSecrets)
    (response : bytes) (pin : string) : M unit :=
  ch ← challenge (ID s);
  match ch with
  | None =>
      match PublicKey s with
      | Some _ => fail ErrChallengeResponseRequired
      | None => mret tt
      end
  | Some ch =>
      let bts := marshalChallengeData ch pin in
      lift (signed_Verify (PublicKey s) bts response)
  end.

(** [ValidateAuth] (lines 64-76). *)
Definition ValidateAuth (now : Z) (secrets : UserSecrets) (response : bytes)
    (pin : string) : M string :=
  c ← getCore;
  s ← lift (decryptUserSecretsIfPinOK c secrets pin);
  _ ← verifyChallengeResponse s response pin;
  lift (authJWT c now s).

(** [verifyAccess] (lines 156-198).  The type assertion
    [token.Claims.(jwt.MapClaims)] cannot fail after [jwt.Parse].  A failed
    decryption returns the error of the decryption. *)
Definition verifyAccess (c : Core) (now : Z) (secrets : UserSecrets)
    (jwtToken : string) : result unencryptedUserSecrets :=
  match Parse now jwtToken
          (fun token =>
             if negb (isRS256 (Method token)) then Err ErrInvalidJWT
             else Ok (RSAKey (rsa_Public (jwtPrivateKey c)))) with
  | Err _ => Err ErrInvalidJWT
  | Ok token =>
      let claims := Claims token in
      if negb (Valid claims now) then Err ErrInvalidJWT
      else if negb (VerifyExpiresAt claims now true) then Err ErrExpiredJWT
      else
        match claims !! "token_id" with
        | None => Err ErrInvalidJWT
        | Some (JString tokenIDB64) =>
            match DecodeString tokenIDB64 with
            | None => Err ErrInvalidJWT
            | Some tokenID =>
                match decryptUserSecrets c secrets with
                | Err e => Err e
                | Ok s =>
                    if negb (Z.eqb (ConstantTimeCompare (ID s) tokenID) 1)
                    then Err ErrInvalidJWT
                    else Ok s
                end
            end
        | Some _ => Err ErrInvalidJWT
        end
  end.

(** [ValidateJWT] (lines 111-114). *)
Definition ValidateJWT (c : Core) (now : Z) (secrets : UserSecrets)
    (jwt : string) : result unit :=
  match verifyAccess c now secrets jwt with
  | Ok _ => Ok tt
  | Err e => Err e
  end.

(** [ChangePin] (lines 118-152). *)
Definition ChangePin (now : Z) (secrets : UserSecrets) (jwtt : string)
    : M UserSecrets :=
  c ← getCore;
  s ← lift (decryptUserSecrets c secrets);
  '(_, claims) ← lift (ParseWithClaims decodeChangePinClaims Valid now jwtt
                         (fun _ => match PublicKey s with
                                   | None => Err ErrKeyNotFound
                                   | Some pk => Ok (ECDSAKey pk)
                                   end));
  _ ← lift (verifyPin s (OldPin claims));
  id ← rand_Read 32;
  s ← lift (setPin s (NewPin claims));
  s ← lift (setID s id);
  encryptUserSecrets s.

(** The loop of [GenerateCommitments] (lines 203-210): the keys found so
    far are appended to [keyList]; the first identifier that is not in
    [trustedKeys] ends the call. *)
Fixpoint buildKeyList (c : Core) (keyIDs : list PublicKeyIdentifier)
    (keyList : list GabiPublicKey) : result (list GabiPublicKey) :=
  match keyIDs with
  | [] => Ok keyList
  | keyID :: rest =>
      match trustedKeys c !! keyID with
      | None => Err ErrKeyNotFound
      | Some key => buildKeyList c rest (keyList ++ [key])
      end
  end.

(** [GenerateCommitments] (lines 201-237). *)
Definition GenerateCommitments (now : Z) (secrets : UserSecrets)
    (accessToken : string) (keyIDs : list PublicKeyIdentifier)
    : M (list ProofPCommitment * Z) :=
  c ← getCore;
  keyList ← lift (buildKeyList c keyIDs []);
  s ← lift (verifyAccess c now secrets accessToken);
  '(commitSecret, commitments) ←
     withEntropy (NewKeyshareCommitments (KeyshareSecret s) keyList);
  bs ← rand_Read 8;
  let commitID := LittleEndian bs in
  _ ← modifyCore (set_commitmentData (<[commitID := commitSecret]>));
  mret (commitments, commitID).

(** The claims of the response token (lines 266-271). *)
Definition proofPClaims (c : Core) (now : Z) (proofP : JSON) : MapClaims :=
  <["ProofP" := proofP]>
    (<["iat" := JNumber now]>
       (<["sub" := JString "ProofP"]> {["iss" := JString (jwtIssuer c)]})).

(** [GenerateResponse] (lines 240-274).  The commit is looked up and
    deleted in one critical section. *)
Definition GenerateResponse (now : Z) (secrets : UserSecrets)
    (accessToken : string) (commitID : Z) (challenge : Z)
    (keyID : PublicKeyIdentifier) : M string :=
  c ← getCore;
  if Z.ltb (Z.of_N Lh) (BitLen challenge) || Z.ltb challenge 0
  then fail ErrInvalidChallenge
  else
    match trustedKeys c !! keyID with
    | None => fail ErrKeyNotFound
    | Some key =>
        s ← lift (verifyAccess c now secrets accessToken);
        let commit := commitmentData c !! commitID in
        _ ← modifyCore (set_commitmentData (delete commitID));
        match commit with
        | None => fail ErrUnknownCommit
        | Some commit =>
            let token :=
              NewWithClaims SigningMethodRS256
                (proofPClaims c now
                   (KeyshareResponse (KeyshareSecret s) commit challenge key))
                (jwtPrivateKeyID c) in
            lift (SignedString token (jwtPrivateKey c))
        end
    end.

(** [GenerateChallenge] (lines 276-296). *)
Definition GenerateChallenge (secrets : UserSecrets) : M bytes :=
  c ← getCore;
  s ← lift (decryptUserSecrets c secrets);
  match PublicKey s with
  | None =>
      fail (ErrOther
        "can't do challenge-response: no public key associated to account")
  | Some _ =>
      challenge ← rand_Read 32;
      _ ← modifyCore
            (set_authChallenges (<[string_of_bytes (ID s) := challenge]>));
      mret challenge
  end.

(** [SetUserPublicKey] (lines 307-327). *)
Definition SetUserPublicKey (now : Z) (secrets : UserSecrets) (pin : string)
    (pk : option ecdsa_PublicKey) : M (string * UserSecrets) :=
  c ← getCore;
  s ← lift (decryptUserSecretsIfPinOK c secrets pin);
  match PublicKey s with
  | Some _ => fail (ErrOther "user already has public key")
  | None =>
      let s := setPublicKey s pk in
      secrets ← encryptUserSecrets s;
      jwtt ← lift (authJWT c now s);
      mret (jwtt, secrets)
  end.

(** [NewUserSecrets] (lines 34-61); [s] starts as the zero value. *)
Definition NewUserSecrets (pin : string) (pk : option ecdsa_PublicKey)
    : M UserSecrets :=
  secret ← withEntropy NewKeyshareSecret;
  id ← rand_Read 32;
  let s := mkSecrets [] 0 [] None in
  s ← lift (setPin s pin);
  s ← lift (setKeyshareSecret s secret);
  s ← lift (setID s id);
  let s := setPublicKey s pk in
  encryptUserSecrets s.

(** ** Notions the statements below use *)

(** The fields of the core that no method writes. *)
Definition sameConfig (c c' : Core) : Prop :=
  decryptionKey c = decryptionKey c' /\
  jwtPrivateKey c = jwtPrivateKey c' /\
  jwtPrivateKeyID c = jwtPrivateKeyID c' /\
  jwtIssuer c = jwtIssuer c' /\
  jwtPinExpiry c = jwtPinExpiry c' /\
  trustedKeys c = trustedKeys c'.

(** The world after the challenge stored for [id] was taken. *)
Definition taken (id : bytes) (w : World) : World :=
  mkWorld (set_authChallenges (delete (string_of_bytes id)) (core w))
          (entropy w).

(** The world after the commit stored under [cid] was taken. *)
Definition fetched (cid : Z) (w : World) : World :=
  mkWorld (set_commitmentData (delete cid) (core w)) (entropy w).

(** The response token [GenerateResponse] signs for a commit (lines
    266-273). *)
Definition responseJWT (c : Core) (now : Z) (s : unencryptedUserSecrets)
    (commit challenge : Z) (key : GabiPublicKey) : result string :=
  SignedString
    (NewWithClaims SigningMethodRS256
       (proofPClaims c now
          (KeyshareResponse (KeyshareSecret s) commit challenge key))
       (jwtPrivateKeyID c))
    (jwtPrivateKey c).

(** A [GenerateResponse] request that passes the checks made before the
    commit is fetched: the challenge is in range, the key is trusted and
    the access token verifies. *)
Definition validRequest (c : Core) (now : Z) (secrets : UserSecrets)
    (accessToken : string) (challenge : Z) (keyID : PublicKeyIdentifier)
    : bool :=
  negb (Z.ltb (Z.of_N Lh) (BitLen challenge) || Z.ltb challenge 0)
  && bool_decide (is_Some (trustedKeys c !! keyID))
  && is_Ok (verifyAccess c now secrets accessToken).

(** ** Sequences of calls

    The exported methods as labels of a transition system on worlds; each
    call carries the clock reading it runs at. *)
Inductive Call : Type :=
  | CallNewUserSecrets (pin : string) (pk : option ecdsa_PublicKey)
  | CallValidateAuth (now : Z) (secrets : UserSecrets) (response : bytes)
      (pin : string)
  | CallValidateJWT (now : Z) (secrets : UserSecrets) (jwt : string)
  | CallChangePin (now : Z) (secrets : UserSecrets) (jwtt : string)
  | CallGenerateCommitments (now : Z) (secrets : UserSecrets)
      (accessToken : string) (keyIDs : list PublicKeyIdentifier)
  | CallGenerateResponse (now : Z) (secrets : UserSecrets)
      (accessToken : string) (commitID : Z) (challenge : Z)
      (keyID : PublicKeyIdentifier)
  | CallGenerateChallenge (secrets : UserSecrets)
  | CallSetUserPublicKey (now : Z) (secrets : UserSecrets) (pin : string)
      (pk : option ecdsa_PublicKey).

(** What a call returned. *)
Inductive Reply : Type :=
  | ReplySecrets (r : result UserSecrets)
  | ReplyToken (r : result string)
  | ReplyValid (r : result unit)
  | ReplyCommitments (r : result (list ProofPCommitment * Z))
  | ReplyChallenge (r : result bytes)
  | ReplyRegistered (r : result (string * UserSecrets)).

(** The reply of a method run on a world, and the world it leaves. *)
Definition serve {A} (wrap : result A -> Reply) (m : M A) (w : World)
    : Reply * World :=
  (wrap (m w).1, (m w).2).

Definition step (call : Call) (w : World) : Reply * World :=
  match call with
  | CallNewUserSecrets pin pk =>
      serve ReplySecrets (NewUserSecrets pin pk) w
  | CallValidateAuth now secrets response pin =>
      serve ReplyToken (ValidateAuth now secrets response pin) w
  | CallValidateJWT now secrets jwt =>
      (ReplyValid (ValidateJWT (core w) now secrets jwt), w)
  | CallChangePin now secrets jwtt =>
      serve ReplySecrets (ChangePin now secrets jwtt) w
  | CallGenerateCommitments now secrets accessToken keyIDs =>
      serve ReplyCommitments
        (GenerateCommitments now secrets accessToken keyIDs) w
  | CallGenerateResponse now secrets accessToken commitID challenge keyID =>
      serve ReplyToken
        (GenerateResponse now secrets accessToken commitID challenge keyID) w
  | CallGenerateChallenge secrets =>
      serve ReplyChallenge (GenerateChallenge secrets) w
  | CallSetUserPublicKey now secrets pin pk =>
      serve ReplyRegistered (SetUserPublicKey now secrets pin pk) w
  end.

(** The replies of a sequence of calls and the world after it. *)
Fixpoint run (calls : list Call) (w : World) : list Reply * World :=
  match calls with
  | [] => ([], w)
  | call :: rest =>
      let rw := step call w in
      let rsw := run rest rw.2 in
      (rw.1 :: rsw.1, rsw.2)
  end.

(** The call issues commit-id [cid]: a [GenerateCommitments] that
    returned it. *)
Definition issues (cid : Z) (r : Reply) : bool :=
  match r with
  | ReplyCommitments (Ok (_, cid')) => Z.eqb cid cid'
  | _ => false
  end.

(** The call is a [GenerateResponse] for [cid] that was answered with a
    response token. *)
Definition answers (cid : Z) (call : Call) (r : Reply) : bool :=
  match call, r with
  | CallGenerateResponse _ _ _ cid' _ _, ReplyToken (Ok _) => Z.eqb cid cid'
  | _, _ => false
  end.

(** How often [cid] was answered and how often it was issued in a run,
    and whether a commit is stored under it. *)
Fixpoint answered (cid : Z) (calls : list Call) (rs : list Reply) : nat :=
  match calls, rs with
  | call :: calls', r :: rs' =>
      ((if answers cid call r then 1 else 0) + answered cid calls' rs')%nat
  | _, _ => 0%nat
  end.

Fixpoint issued (cid : Z) (rs : list Reply) : nat :=
  match rs with
  | r :: rs' => ((if issues cid r then 1 else 0) + issued cid rs')%nat
  | [] => 0%nat
  end.

Definition stored (cid : Z) (w : World) : nat :=
  match commitmentData (core w) !! cid with
  | Some _ => 1%nat
  | None => 0%nat
  end.


(** The shape of the two stores: every stored challenge has 32 bytes and
    every commit-id is a [uint64]. *)
Definition wellFormedStores (w : World) : Prop :=
  map_Forall (fun _ ch => length ch = 32%nat) (authChallenges (core w)) /\
  map_Forall (fun cid _ => 0 <= cid < 2 ^ 64) (commitmentData (core w)).

End Keyshare.

(* ===================================================================== *)
(** * A small executable environment                                      *)
(* ===================================================================== *)

(** An instance of [KeyshareEnv] that computes: records are serialised
    through their [Countable] encodings, written as binary digits, and the
    "signatures" are checksums bound to the public key.  It provides no
    secrecy; it shows that the laws of the environment can be met and it
    runs the operations on concrete inputs. *)
Module Toy.

Fixpoint string_of_pos (p : positive) : string :=
  match p with
  | xH => ""
  | xO q => String "0" (string_of_pos q)
  | xI q => String "1" (string_of_pos q)
  end.

Fixpoint pos_of_string (s : string) : option positive :=
  match s with
  | EmptyString => Some xH
  | String c r =>
      if Ascii.eqb c "0" then xO <$> pos_of_string r
      else if Ascii.eqb c "1" then xI <$> pos_of_string r
      else None
  end.

Definition write {A} `{Countable A} (a : A) : string :=
  string_of_pos (encode a).

Definition read {A} `{Countable A} (s : string) : option A :=
  p ← pos_of_string s; decode p.

#[local] Instance JSON_eq_dec : EqDecision JSON.
Proof. solve_decision. Defined.

#[local] Instance JSON_countable : Countable JSON.
Proof.
  refine (inj_countable'
    (fun j => match j with
              | JNull => inl tt
              | JBool b => inr (inl b)
              | JNumber n => inr (inr (inl n))
              | JString s => inr (inr (inr (inl s)))
              | JRaw t => inr (inr (inr (inr t)))
              end)
    (fun x => match x with
              | inl _ => JNull
              | inr (inl b) => JBool b
              | inr (inr (inl n)) => JNumber n
              | inr (inr (inr (inl s))) => JString s
              | inr (inr (inr (inr t))) => JRaw t
              end) _).
  intros []; reflexivity.
Defined.

#[local] Instance SigningMethod_eq_dec : EqDecision SigningMethod.
Proof. solve_decision. Defined.

#[local] Instance SigningMethod_countable : Countable SigningMethod.
Proof.
  refine (inj_countable'
    (fun m => match m with
              | SigningMethodRS256 => inl 0%nat
              | SigningMethodES256 => inl 1%nat
              | SigningMethodHS256 => inl 2%nat
              | SigningMethodNone => inl 3%nat
              | SigningMethodOther alg => inr alg
              end)
    (fun x => match x with
              | inl 0%nat => SigningMethodRS256
              | inl 1%nat => SigningMethodES256
              | inl 2%nat => SigningMethodHS256
              | inl _ => SigningMethodNone
              | inr alg => SigningMethodOther alg
              end) _).
  intros []; reflexivity.
Defined.

Definition tupleOfToken (t : Token) :=
  (Method t, Header t, Claims t).

Definition tokenOfTuple
    (x : SigningMethod * gmap string JSON * gmap string JSON) : Token :=
  let '(m, h, c) := x in mkToken m h c.

Definition tupleOfSecrets (s : unencryptedUserSecrets) :=
  (string_of_list_byte (Pin s), KeyshareSecret s,
   string_of_list_byte (ID s),
   (fun k => (ecdsa_X k, ecdsa_Y k)) <$> PublicKey s).

Definition secretsOfTuple (x : string * Z * string * option (Z * Z))
    : unencryptedUserSecrets :=
  let '(p, k, i, pk) := x in
  mkSecrets (list_byte_of_string p) k (list_byte_of_string i)
    ((fun xy => {| ecdsa_X := fst xy; ecdsa_Y := snd xy |}) <$> pk).

(** A checksum of a text: the sum of its character codes. *)
Fixpoint checksum (s : string) : Z :=
  match s with
  | EmptyString => 0
  | String c r => Z.of_N (N_of_ascii c) + checksum r
  end.

(** The toy signature of a text under a key number. *)
Definition sign (key : Z) (text : string) : bytes :=
  list_byte_of_string (write (key, checksum text)).

Definition keyNumber (k : Key) : Z :=
  match k with
  | RSAKey k => rsa_N k
  | ECDSAKey k => ecdsa_X k
  end.

Definition toy_seal (k rnd : bytes) (s : unencryptedUserSecrets)
    : result (UserSecrets * bytes) :=
  if Nat.ltb (length rnd) 12 then Err (ErrOther "rand: read failed")
  else
    Ok (list_byte_of_string
          (write (string_of_list_byte k, string_of_list_byte (take 12 rnd),
                  tupleOfSecrets s)),
        drop 12 rnd).

Definition toy_unseal (k : bytes) (b : UserSecrets)
    : result unencryptedUserSecrets :=
  match read (A := string * string * (string * Z * string * option (Z * Z)))
          (string_of_list_byte b) with
  | Some (k', _, t) =>
      if decide (k' = string_of_list_byte k :> string)
      then Ok (secretsOfTuple t)
      else Err (ErrOther "cipher: message authentication failed")
  | None => Err (ErrOther "cipher: message authentication failed")
  end.

(** The compact form of a token and its signature. *)
Definition compact (tok : Token) (sg : bytes) : string :=
  write (tupleOfToken tok, string_of_list_byte sg).

Definition toy_signingString (tok : Token) : string :=
  write (tupleOfToken tok).

Definition toy_ParseUnverified (str : string) : option Parsed :=
  match read (A := SigningMethod * gmap string JSON * gmap string JSON
                    * string) str with
  | Some (t, sg) =>
      let tok := tokenOfTuple t in
      Some (mkParsed tok (toy_signingString tok) (list_byte_of_string sg))
  | None => None
  end.

Definition toy_Verify (m : SigningMethod) (ss : string) (sg : bytes)
    (k : Key) : bool :=
  match m, k with
  | SigningMethodRS256, RSAKey _
  | SigningMethodES256, ECDSAKey _ =>
      bool_decide (string_of_list_byte sg
                   = string_of_list_byte (sign (keyNumber k) ss))
  | _, _ => false
  end.

Definition toy_SignedString (tok : Token) (sk : rsa_PrivateKey)
    : result string :=
  Ok (compact tok (sign (rsa_N (rsa_Public sk)) (toy_signingString tok))).

Definition toy_marshalChallengeData (ch : bytes) (pin : string) : bytes :=
  ch ++ list_byte_of_string pin.

Definition toy_signed_Verify (pk : option ecdsa_PublicKey) (bts resp : bytes)
    : result unit :=
  match pk with
  | None => Err (ErrOther "signed: no public key")
  | Some k =>
      if bool_decide (string_of_list_byte resp
                      = string_of_list_byte
                          (sign (ecdsa_X k) (string_of_list_byte bts)))
      then Ok tt
      else Err (ErrOther "signed: invalid signature")
  end.

Definition toy_NewKeyshareSecret (rnd : bytes) : result (Z * bytes) :=
  if Nat.ltb (length rnd) 4 then Err (ErrOther "rand: read failed")
  else Ok (LittleEndian (take 4 rnd), drop 4 rnd).

Definition toy_NewKeyshareCommitments (secret : Z)
    (keys : list GabiPublicKey) (rnd : bytes)
    : result (Z * list ProofPCommitment * bytes) :=
  if Nat.ltb (length rnd) 4 then Err (ErrOther "rand: read failed")
  else
    let w := LittleEndian (take 4 rnd) in
    Ok (w, (fun k => {| commitP := gabi_S k * secret;
                        commitPcommit := gabi_S k * w |}) <$> keys,
        drop 4 rnd).

Definition toy_KeyshareResponse (secret commit challenge : Z)
    (key : GabiPublicKey) : JSON :=
  JNumber (commit + challenge * secret).

Lemma pos_of_string_of_pos p : pos_of_string (string_of_pos p) = Some p.
Proof. induction p as [q IH|q IH|]; simpl; rewrite ?IH; reflexivity. Qed.

Lemma read_write {A} `{Countable A} (a : A) : read (write a) = Some a.
Proof.
  unfold read, write. rewrite pos_of_string_of_pos. simpl.
  apply decode_encode.
Qed.

Lemma secretsOfTuple_tupleOfSecrets s :
  secretsOfTuple (tupleOfSecrets s) = s.
Proof.
  destruct s as [p k i [[x y]|]]; unfold tupleOfSecrets, secretsOfTuple;
    simpl; rewrite !list_byte_of_string_of_list_byte; reflexivity.
Qed.

Lemma toy_unseal_seal k rnd s b rnd' :
  toy_seal k rnd s = Ok (b, rnd') -> toy_unseal k b = Ok s.
Proof.
  unfold toy_seal, toy_unseal.
  destruct (Nat.ltb _ _); [discriminate|].
  intros [= <- _].
  rewrite string_of_list_byte_of_string, read_write.
  rewrite decide_True by reflexivity.
  by rewrite secretsOfTuple_tupleOfSecrets.
Qed.

Lemma toy_Decode_Encode (b : bytes) :
  Some (list_byte_of_string (string_of_list_byte b)) = Some b.
Proof. by rewrite list_byte_of_string_of_list_byte. Qed.

Lemma toy_Parse_Signed tok sk str :
  toy_SignedString tok sk = Ok str ->
  exists ss sg,
    toy_ParseUnverified str = Some (mkParsed tok ss sg) /\
    (Method tok = SigningMethodRS256 ->
     toy_Verify SigningMethodRS256 ss sg (RSAKey (rsa_Public sk)) = true).
Proof.
  unfold toy_SignedString, toy_ParseUnverified, compact.
  intros [= <-]. rewrite read_write.
  assert (tokenOfTuple (tupleOfToken tok) = tok) as -> by by destruct tok.
  eexists _, _. split.
  - rewrite list_byte_of_string_of_list_byte. reflexivity.
  - intros _. simpl. by apply bool_decide_eq_true.
Qed.

Definition Env : KeyshareEnv := {|
  Lh := 256;
  pinWidth := 64;
  pinHash := list_byte_of_string;
  seal := toy_seal;
  unseal := toy_unseal;
  EncodeToString := string_of_list_byte;
  DecodeString := fun s => Some (list_byte_of_string s);
  ParseUnverified := toy_ParseUnverified;
  Verify := toy_Verify;
  SignedString := toy_SignedString;
  marshalChallengeData := toy_marshalChallengeData;
  signed_Verify := toy_signed_Verify;
  NewKeyshareSecret := toy_NewKeyshareSecret;
  NewKeyshareCommitments := toy_NewKeyshareCommitments;
  KeyshareResponse := toy_KeyshareResponse;
  unseal_seal := toy_unseal_seal;
  Decode_Encode := toy_Decode_Encode;
  Parse_Signed := toy_Parse_Signed;
|}.

End Toy.

(* ===================================================================== *)
(** * Concrete runs                                                       *)
(* ===================================================================== *)

(** A server, two users and the requests the examples below run, in the
    toy environment. *)
Module Scenario.

#[local] Existing Instance Toy.Env.

Definition clientKey : ecdsa_PublicKey := {| ecdsa_X := 5; ecdsa_Y := 8 |}.

Definition serverKey : rsa_PrivateKey :=
  {| rsa_Public := {| rsa_N := 77; rsa_E := 7 |}; rsa_D := 43 |}.

Definition issuerKey : GabiPublicKey :=
  {| gabi_N := 3233; gabi_Z := 12; gabi_S := 5; gabi_R := [7; 9] |}.

(** The registry trusts the key [test.test-3] only. *)
Definition config : Core :=
  mkCore (list_byte_of_string "storage key") serverKey 0 "keyshare" 900
    ∅ ∅ {[ ("test.test", 3%N) := issuerKey ]}.

Definition tape : bytes :=
  list_byte_of_string
    ("Lorem ipsum dolor sit amet, consectetur adipiscing elit, sed do "
     ++ "eiusmod tempor incididunt ut labore et dolore magna aliqua. Ut "
     ++ "enim ad minim veniam, quis nostrud exercitation ullamco laboris.").

Definition start : World := mkWorld config tape.

(** A user without a client key and one with a client key; the PIN of
    both is 1234. *)
Definition legacyUser : unencryptedUserSecrets :=
  mkSecrets (list_byte_of_string "1234") 11
    (list_byte_of_string "0123456789abcdef0123456789abcdef") None.

Definition keyedUser : unencryptedUserSecrets :=
  mkSecrets (list_byte_of_string "1234") 13
    (list_byte_of_string "fedcba9876543210fedcba9876543210") (Some clientKey).

Definition sealed (s : unencryptedUserSecrets) : UserSecrets :=
  match Toy.toy_seal (decryptionKey config)
          (list_byte_of_string "nonce nonce.") s with
  | Ok (b, _) => b
  | Err _ => []
  end.

Definition legacyBlob : UserSecrets := sealed legacyUser.
Definition keyedBlob : UserSecrets := sealed keyedUser.

(** The access token minted for a user at a clock reading. *)
Definition minted (now : Z) (s : unencryptedUserSecrets) : string :=
  match authJWT config now s with
  | Ok t => t
  | Err _ => ""
  end.

(** A PIN-change request signed by the client key. *)
Definition changePinToken : Token :=
  mkToken SigningMethodES256 ∅
    (<["oldpin" := JString "1234"]> {["newpin" := JString "4321"]}).

Definition changePinJWT : string :=
  Toy.compact changePinToken
    (Toy.sign (ecdsa_X clientKey) (Toy.toy_signingString changePinToken)).

(** The client's answer to an auth challenge. *)
Definition answer (ch : bytes) (pin : string) : bytes :=
  Toy.sign (ecdsa_X clientKey)
    (string_of_list_byte (Toy.toy_marshalChallengeData ch pin)).

(** A token signed by the server that carries no expiry. *)
Definition noExpToken : Token :=
  NewWithClaims SigningMethodRS256
    (<["iat" := JNumber 1000]>
       {["token_id" := JString (string_of_list_byte (ID keyedUser))]})
    0.

Definition noExpJWT : string :=
  Toy.compact noExpToken
    (Toy.sign (rsa_N (rsa_Public serverKey))
       (Toy.toy_signingString noExpToken)).

(** What a call leaves behind and what it returns. *)
Definition after {A} (m : M A) (w : World) : World := (m w).2.

Definition value {A} (d : A) (m : M A) (w : World) : A :=
  match (m w).1 with
  | Ok a => a
  | Err _ => d
  end.

End Scenario.

(* ===================================================================== *)
(** * Facts about the Go values                                           *)
(* ===================================================================== *)

Section GoFacts.

Lemma byteZ_bounds b : 0 <= byteZ b < 256.
Proof.
  unfold byteZ. pose proof (Byte.to_N_bounded b). lia.
Qed.

Lemma byteZ_inj a b : byteZ a = byteZ b -> a = b.
Proof.
  unfold byteZ. intros H. apply N2Z.inj in H.
  pose proof (Byte.of_to_N a) as Ha. rewrite H, Byte.of_to_N in Ha.
  congruence.
Qed.

Lemma below_pow2_bits n a :
  0 <= n -> 0 <= a -> (a < 2 ^ n <-> forall i, n <= i -> Z.testbit a i = false).
Proof.
  intros Hn Ha. split.
  - intros Hlt i Hi.
    destruct (Z.eq_dec a 0) as [->|Hne]; [apply Z.bits_0|].
    apply Z.bits_above_log2; [lia|].
    assert (Z.log2 a < n) by (apply Z.log2_lt_pow2; lia). lia.
  - intros Hbits.
    destruct (Z.eq_dec a 0) as [->|Hne]; [apply Z.pow_pos_nonneg; lia|].
    apply Z.log2_lt_pow2; [lia|].
    destruct (Z_lt_le_dec (Z.log2 a) n) as [|Hge]; [assumption|].
    specialize (Hbits (Z.log2 a) Hge).
    rewrite Z.bit_log2 in Hbits by lia. discriminate.
Qed.

Lemma lor_below n a b :
  0 <= n -> 0 <= a < 2 ^ n -> 0 <= b < 2 ^ n -> 0 <= Z.lor a b < 2 ^ n.
Proof.
  intros Hn [Ha Ha'] [Hb Hb'].
  assert (0 <= Z.lor a b) by (apply Z.lor_nonneg; lia).
  split; [assumption|].
  apply below_pow2_bits; [assumption..|].
  intros i Hi. rewrite Z.lor_spec.
  rewrite (proj1 (below_pow2_bits n a Hn Ha) Ha' i Hi).
  rewrite (proj1 (below_pow2_bits n b Hn Hb) Hb' i Hi). reflexivity.
Qed.

Lemma lxor_below n a b :
  0 <= n -> 0 <= a < 2 ^ n -> 0 <= b < 2 ^ n -> 0 <= Z.lxor a b < 2 ^ n.
Proof.
  intros Hn [Ha Ha'] [Hb Hb'].
  assert (0 <= Z.lxor a b) by (apply Z.lxor_nonneg; lia).
  split; [assumption|].
  apply below_pow2_bits; [assumption..|].
  intros i Hi. rewrite Z.lxor_spec.
  rewrite (proj1 (below_pow2_bits n a Hn Ha) Ha' i Hi).
  rewrite (proj1 (below_pow2_bits n b Hn Hb) Hb' i Hi). reflexivity.
Qed.

(** [ConstantTimeByteEq v 0] tells whether the byte [v] is zero. *)
Lemma ConstantTimeByteEq_zero v :
  0 <= v < 256 -> ConstantTimeByteEq v 0 = if Z.eqb v 0 then 1 else 0.
Proof.
  intros Hv. unfold ConstantTimeByteEq. rewrite Z.lxor_0_r.
  rewrite Z.shiftr_div_pow2 by lia.
  destruct (Z.eqb_spec v 0) as [->|Hne].
  - reflexivity.
  - rewrite Z.mod_small by lia. apply Z.div_small. lia.
Qed.

Lemma xorAcc_fold_bounds l v :
  0 <= v < 256 -> 0 <= fold_left xorAcc l v < 256.
Proof.
  revert v. induction l as [|[a b] l IH]; intros v Hv; simpl; [assumption|].
  apply IH. unfold xorAcc. simpl.
  apply (lor_below 8); [lia|assumption|].
  apply (lxor_below 8); [lia|apply byteZ_bounds..].
Qed.

Lemma xorAcc_fold_zero l v :
  0 <= v ->
  fold_left xorAcc l v = 0 <-> v = 0 /\ Forall (fun xy => fst xy = snd xy) l.
Proof.
  revert v. induction l as [|[a b] l IH]; intros v Hv; simpl.
  - split; [intros ->; split; [reflexivity|constructor]|intros [-> _]; reflexivity].
  - assert (0 <= xorAcc v (a, b)) as Hacc.
    { unfold xorAcc. simpl. apply Z.lor_nonneg. split; [assumption|].
      apply Z.lxor_nonneg. pose proof (byteZ_bounds a).
      pose proof (byteZ_bounds b). lia. }
    rewrite (IH _ Hacc). unfold xorAcc at 1. simpl.
    rewrite Z.lor_eq_0_iff, Z.lxor_eq_0_iff. split.
    + intros [[-> Hab] Hl]. split; [reflexivity|].
      constructor; [exact (byteZ_inj _ _ Hab)|assumption].
    + intros [-> Hl]. inversion Hl as [|? ? Hab Hl']; subst. simpl in Hab.
      subst. repeat split. assumption.
Qed.

Lemma combine_diag_eq (x y : bytes) :
  length x = length y ->
  Forall (fun xy : byte * byte => fst xy = snd xy) (combine x y) -> x = y.
Proof.
  revert y. induction x as [|a x IH]; intros [|b y] Hlen Hall;
    simpl in *; try discriminate; [reflexivity|].
  inversion Hall as [|? ? Hab Hl]; subst. simpl in Hab. subst.
  f_equal. apply IH; [congruence|assumption].
Qed.

Lemma combine_diag_refl (x : bytes) :
  Forall (fun xy : byte * byte => fst xy = snd xy) (combine x x).
Proof. induction x; simpl; constructor; auto. Qed.

(** The comparison answers 1 exactly on equal slices. *)
Lemma ConstantTimeCompare_eq x y : ConstantTimeCompare x y = 1 <-> x = y.
Proof.
  unfold ConstantTimeCompare.
  destruct (Nat.eqb_spec (length x) (length y)) as [Hlen|Hlen]; simpl.
  - rewrite ConstantTimeByteEq_zero by (apply xorAcc_fold_bounds; lia).
    destruct (Z.eqb_spec (fold_left xorAcc (combine x y) 0) 0) as [H0|H0].
    + apply xorAcc_fold_zero in H0; [|lia]. destruct H0 as [_ Hall].
      split; [intros _; apply combine_diag_eq; assumption|reflexivity].
    + split; [discriminate|]. intros ->. exfalso. apply H0.
      apply xorAcc_fold_zero; [lia|]. split; [reflexivity|].
      apply combine_diag_refl.
  - split; [discriminate|]. intros ->. contradiction.
Qed.

Lemma ConstantTimeCompare_refl x : ConstantTimeCompare x x = 1.
Proof. by apply ConstantTimeCompare_eq. Qed.

Lemma string_of_bytes_inj a b : string_of_bytes a = string_of_bytes b -> a = b.
Proof.
  unfold string_of_bytes. intros H.
  rewrite <- (list_byte_of_string_of_list_byte a),
          <- (list_byte_of_string_of_list_byte b).
  by rewrite H.
Qed.

(** In-range challenges, in the terms of the guard of [GenerateResponse]. *)
Lemma BitLen_nonneg x : 0 <= BitLen x.
Proof.
  unfold BitLen. destruct (Z.eqb x 0); [lia|].
  pose proof (Z.log2_nonneg (Z.abs x)). lia.
Qed.

Lemma BitLen_le_iff x n : 0 <= x -> 0 <= n -> BitLen x <= n <-> x < 2 ^ n.
Proof.
  intros Hx Hn. unfold BitLen. destruct (Z.eqb_spec x 0) as [->|Hne].
  - split; [intros _; apply Z.pow_pos_nonneg; lia|lia].
  - rewrite Z.abs_eq by lia. rewrite Z.log2_lt_pow2 by lia. lia.
Qed.

End GoFacts.

(* ===================================================================== *)
(** * Access tokens                                                       *)
(* ===================================================================== *)

(** Unfold the monad down to functions on worlds. *)
Ltac unfold_M :=
  unfold mbind, M_bind, mret, M_ret, lift, fail, getCore, modifyCore,
    withEntropy, rand_Read in *.

(** Case analysis on the first [match] or [if] scrutinee of the goal. *)
Ltac case_scrutinee :=
  match goal with
  | |- context [match ?x with _ => _ end] =>
      lazymatch x with
      | context [match _ with _ => _ end] => fail
      | _ => destruct x eqn:?
      end
  end.

Section AccessTokens.

Context `{Env : KeyshareEnv}.

Lemma sameConfig_refl c : sameConfig c c.
Proof. by repeat split. Qed.

Lemma sameConfig_trans c1 c2 c3 :
  sameConfig c1 c2 -> sameConfig c2 c3 -> sameConfig c1 c3.
Proof. unfold sameConfig. intuition congruence. Qed.

Lemma verifyAccess_sameConfig c c' now secrets jwt :
  sameConfig c c' ->
  verifyAccess c now secrets jwt = verifyAccess c' now secrets jwt.
Proof.
  intros (Hk & Hj & _). unfold verifyAccess, decryptUserSecrets.
  by rewrite Hk, Hj.
Qed.

(** What [jwt.Parse] under the key function of [verifyAccess] accepts. *)
Lemma Parse_access_Ok c now jwt token :
  Parse now jwt
    (fun token => if negb (isRS256 (Method token)) then Err ErrInvalidJWT
                  else Ok (RSAKey (rsa_Public (jwtPrivateKey c)))) = Ok token
  <-> exists ss sg,
        ParseUnverified jwt = Some (mkParsed token ss sg) /\
        Method token = SigningMethodRS256 /\
        Valid (Claims token) now = true /\
        Verify SigningMethodRS256 ss sg
          (RSAKey (rsa_Public (jwtPrivateKey c))) = true.
Proof.
  unfold Parse, ParseWithClaims. split.
  - destruct (ParseUnverified jwt) as [[tok ss sg]|]; [|discriminate].
    simpl. destruct (Method tok) eqn:Hm; simpl; try discriminate.
    destruct (Valid (Claims tok) now) eqn:Hv; simpl; [|discriminate].
    destruct (Verify _ ss sg _) eqn:Hs; [|discriminate].
    intros [= <-]. by exists ss, sg.
  - intros (ss & sg & -> & Hm & Hv & Hs). simpl.
    rewrite Hm. simpl. by rewrite Hv, Hs.
Qed.

(** The successful runs of [verifyAccess]. *)
Lemma verifyAccess_Ok c now secrets jwt s :
  verifyAccess c now secrets jwt = Ok s
  <-> exists token ss sg tokenIDB64,
        ParseUnverified jwt = Some (mkParsed token ss sg) /\
        Method token = SigningMethodRS256 /\
        Valid (Claims token) now = true /\
        Verify SigningMethodRS256 ss sg
          (RSAKey (rsa_Public (jwtPrivateKey c))) = true /\
        VerifyExpiresAt (Claims token) now true = true /\
        Claims token !! "token_id" = Some (JString tokenIDB64) /\
        DecodeString tokenIDB64 = Some (ID s) /\
        decryptUserSecrets c secrets = Ok s.
Proof.
  unfold verifyAccess. split.
  - destruct (Parse _ _ _) as [token|] eqn:HP; [|discriminate].
    apply Parse_access_Ok in HP as (ss & sg & HU & Hm & Hv & Hs).
    rewrite Hv. simpl.
    destruct (VerifyExpiresAt _ _ _) eqn:He; simpl; [|discriminate].
    destruct (Claims token !! "token_id") as [[| | |b64|]|] eqn:Hid;
      try discriminate.
    destruct (DecodeString b64) as [tokenID|] eqn:Hd; [|discriminate].
    destruct (decryptUserSecrets c secrets) as [s'|] eqn:Hdec;
      [|discriminate].
    destruct (Z.eqb_spec (ConstantTimeCompare (ID s') tokenID) 1) as [Hc|Hc];
      simpl; [|discriminate].
    intros [= <-]. apply ConstantTimeCompare_eq in Hc. subst tokenID.
    by exists token, ss, sg, b64.
  - intros (token & ss & sg & b64 & HU & Hm & Hv & Hs & He & Hid & Hd & Hdec).
    assert (Parse now jwt
      (fun token => if negb (isRS256 (Method token)) then Err ErrInvalidJWT
                    else Ok (RSAKey (rsa_Public (jwtPrivateKey c))))
      = Ok token) as ->.
    { apply Parse_access_Ok. by exists ss, sg. }
    rewrite Hv, He, Hid, Hd, Hdec, ConstantTimeCompare_refl. reflexivity.
Qed.

(** The errors of [verifyAccess] are the two access errors or the error of
    the decryption. *)
Lemma verifyAccess_Err c now secrets jwt e :
  verifyAccess c now secrets jwt = Err e ->
  e = ErrInvalidJWT \/ e = ErrExpiredJWT \/
  decryptUserSecrets c secrets = Err e.
Proof.
  unfold verifyAccess.
  destruct (Parse _ _ _) as [token|]; [|intros [= <-]; auto].
  destruct (Valid _ _); simpl; [|intros [= <-]; auto].
  destruct (VerifyExpiresAt _ _ _); simpl; [|intros [= <-]; auto].
  destruct (Claims token !! "token_id") as [[| | |b64|]|];
    try (intros [= <-]; auto; fail).
  destruct (DecodeString b64) as [tokenID|]; [|intros [= <-]; auto].
  destruct (decryptUserSecrets c secrets) as [s|e']; [|intros [= <-]; auto].
  destruct (Z.eqb _ 1); simpl; [discriminate|intros [= <-]; auto].
Qed.

(** [ErrExpiredJWT] is returned exactly for a token that parses and is
    valid but whose [exp] claim is missing or 0: an [exp] in the past has
    already failed [jwt.Parse]. *)
Lemma verifyAccess_Expired c now secrets jwt :
  verifyAccess c now secrets jwt = Err ErrExpiredJWT ->
  exists token ss sg,
    ParseUnverified jwt = Some (mkParsed token ss sg) /\
    (Claims token !! "exp" = None \/
     Claims token !! "exp" = Some (JNumber 0)) \/
    decryptUserSecrets c secrets = Err ErrExpiredJWT.
Proof.
  unfold verifyAccess.
  destruct (Parse _ _ _) as [token|] eqn:HP; [|discriminate].
  apply Parse_access_Ok in HP as (ss & sg & HU & Hm & Hv & Hs).
  rewrite Hv. simpl.
  destruct (VerifyExpiresAt _ _ _) eqn:He; simpl.
  - intros H. exists token, ss, sg. right. revert H.
    destruct (Claims token !! "token_id") as [[| | |b64|]|];
      try discriminate.
    destruct (DecodeString b64) as [tokenID|]; [|discriminate].
    destruct (decryptUserSecrets c secrets) as [s|e']; [|congruence].
    destruct (Z.eqb _ 1); discriminate.
  - intros _. exists token, ss, sg. left. split; [assumption|].
    unfold Valid in Hv. apply andb_true_iff in Hv as [Hv _].
    apply andb_true_iff in Hv as [Hv _].
    unfold VerifyExpiresAt, verifyTimeClaim in *.
    destruct (Claims token !! "exp") as [[| |e| |]|]; try discriminate;
      [|by left].
    destruct (Z.eqb_spec e 0) as [E|E]; [subst e; by right|].
    simpl in *. congruence.
Qed.

End AccessTokens.

Section PinChange.

Context `{Env : KeyshareEnv}.

(** A token minted by [authJWT] parses back to the claims it was given. *)
Lemma authJWT_parses c now s t :
  authJWT c now s = Ok t ->
  exists ss sg,
    ParseUnverified t
    = Some (mkParsed (NewWithClaims SigningMethodRS256 (authClaims c s now)
                        (jwtPrivateKeyID c)) ss sg) /\
    Verify SigningMethodRS256 ss sg (RSAKey (rsa_Public (jwtPrivateKey c)))
    = true.
Proof.
  unfold authJWT. intros H. apply Parse_Signed in H as (ss & sg & HU & HV).
  exists ss, sg. split; [assumption|]. by apply HV.
Qed.

Lemma authClaims_token_id c s now :
  authClaims c s now !! "token_id" = Some (JString (EncodeToString (ID s))).
Proof. reflexivity. Qed.

Lemma authClaims_exp c s now :
  authClaims c s now !! "exp" = Some (JNumber (now + jwtPinExpiry c)).
Proof. reflexivity. Qed.

Lemma authClaims_iat c s now :
  authClaims c s now !! "iat" = Some (JNumber now).
Proof. reflexivity. Qed.

Lemma authClaims_nbf c s now : authClaims c s now !! "nbf" = None.
Proof. reflexivity. Qed.


(** A token minted for [s] verifies against a blob of [s] from the moment
    it was issued until it expires. *)
Lemma verifyAccess_minted_Ok c now0 now s t secrets :
  authJWT c now0 s = Ok t ->
  now0 + jwtPinExpiry c <> 0 ->
  decryptUserSecrets c secrets = Ok s ->
  now0 <= now < now0 + jwtPinExpiry c ->
  verifyAccess c now secrets t = Ok s.
Proof.
  intros Ht Hexp Hdec Hnow.
  apply authJWT_parses in Ht as (ss & sg & HU & HV).
  assert (VerifyExpiresAt (authClaims c s now0) now true = true) as He.
  { unfold VerifyExpiresAt, verifyTimeClaim. rewrite authClaims_exp.
    destruct (Z.eqb_spec (now0 + jwtPinExpiry c) 0); [contradiction|].
    apply Z.ltb_lt. lia. }
  assert (VerifyIssuedAt (authClaims c s now0) now false = true) as Hi.
  { unfold VerifyIssuedAt, verifyTimeClaim. rewrite authClaims_iat.
    destruct (Z.eqb now0 0); [reflexivity|]. apply Z.leb_le. lia. }
  assert (Valid (authClaims c s now0) now = true) as Hv.
  { unfold Valid. rewrite Hi.
    unfold VerifyNotBefore, verifyTimeClaim. rewrite authClaims_nbf.
    unfold VerifyExpiresAt, verifyTimeClaim in *. rewrite authClaims_exp in *.
    destruct (Z.eqb_spec (now0 + jwtPinExpiry c) 0); [contradiction|].
    cbn [verifyExp] in *. by rewrite He. }
  apply verifyAccess_Ok.
  exists (NewWithClaims SigningMethodRS256 (authClaims c s now0)
            (jwtPrivateKeyID c)), ss, sg, (EncodeToString (ID s)).
  cbn [Method Claims NewWithClaims].
  split; [exact HU|]. split; [reflexivity|]. split; [exact Hv|].
  split; [exact HV|]. split; [exact He|].
  split; [apply authClaims_token_id|].
  split; [apply Decode_Encode|exact Hdec].
Qed.


(** No call writes the configuration of the core. *)
Lemma step_sameConfig call w : sameConfig (core w) (core (step call w).2).
Proof.
  destruct w as [c rnd].
  destruct call; simpl;
    unfold NewUserSecrets, ValidateAuth, ChangePin, GenerateCommitments,
      GenerateResponse, GenerateChallenge, SetUserPublicKey,
      verifyChallengeResponse, challenge, encryptUserSecrets;
    unfold_M; simpl;
    repeat (case_scrutinee; simpl; try apply sameConfig_refl);
    by repeat split.
Qed.

Lemma run_sameConfig calls w : sameConfig (core w) (core (run calls w).2).
Proof.
  revert w. induction calls as [|call calls IH]; intros w; simpl.
  - apply sameConfig_refl.
  - eapply sameConfig_trans; [apply (step_sameConfig call)|apply IH].
Qed.

End PinChange.

(* ===================================================================== *)
(** * The claims about access tokens and PIN changes                      *)
(* ===================================================================== *)

Section AccessClaims.

Context `{Env : KeyshareEnv}.


(** C3.  A token whose header names a signing method other than RS256 is
    refused with [ErrInvalidJWT], whatever its claims, its signature, the
    blob and the clock. *)
Theorem verifyAccess_rejects_other_algorithms
    (c : Core) (now : Z) (secrets : UserSecrets) (jwt : string) (p : Parsed) :
  ParseUnverified jwt = Some p ->
  Method (parsedToken p) <> SigningMethodRS256 ->
  verifyAccess c now secrets jwt = Err ErrInvalidJWT /\
  ValidateJWT c now secrets jwt = Err ErrInvalidJWT.
Proof.
  intros HU Hm.
  assert (verifyAccess c now secrets jwt = Err ErrInvalidJWT) as Hverify.
  { unfold verifyAccess, Parse, ParseWithClaims. rewrite HU.
    destruct (Method (parsedToken p)); try reflexivity. contradiction. }
  split; [exact Hverify|]. unfold ValidateJWT. by rewrite Hverify.
Qed.

(** A token the library cannot decode, which includes a header naming a
    method the library does not know, is refused in the same way. *)
Lemma verifyAccess_rejects_malformed c now secrets jwt :
  ParseUnverified jwt = None ->
  verifyAccess c now secrets jwt = Err ErrInvalidJWT.
Proof.
  intros HU. unfold verifyAccess, Parse, ParseWithClaims. by rewrite HU.
Qed.

(** An [exp] claim that has passed makes [jwt.Parse] fail, so the token is
    refused with [ErrInvalidJWT] before the expiry check of line 173 runs,
    whatever the signature and the token-id. *)
Lemma verifyAccess_past_expiry c now secrets jwt token ss sg e :
  ParseUnverified jwt = Some (mkParsed token ss sg) ->
  Claims token !! "exp" = Some (JNumber e) ->
  e <> 0 ->
  e <= now ->
  verifyAccess c now secrets jwt = Err ErrInvalidJWT.
Proof.
  intros HU He Hne Hpast.
  destruct (verifyAccess c now secrets jwt) as [s|err] eqn:Hv.
  - apply verifyAccess_Ok in Hv
      as (token' & ss' & sg' & b64 & HU' & _ & _ & _ & Hexp & _).
    rewrite HU in HU'. injection HU' as <- <- <-.
    unfold VerifyExpiresAt, verifyTimeClaim in Hexp. rewrite He in Hexp.
    destruct (Z.eqb_spec e 0); [contradiction|]. simpl in Hexp. lia.
  - revert Hv. unfold verifyAccess, Parse, ParseWithClaims. rewrite HU.
    cbn [parsedToken signingString signature].
    assert (Valid (Claims token) now = false) as ->.
    { unfold Valid, VerifyExpiresAt, verifyTimeClaim. rewrite He.
      destruct (Z.eqb_spec e 0); [contradiction|]. simpl.
      destruct (Z.ltb_spec now e); [lia|reflexivity]. }
    destruct (negb (isRS256 (Method token))); intros [= <-]; reflexivity.
Qed.

(** The successful runs of [SetUserPublicKey]. *)
Lemma SetUserPublicKey_Ok now secrets pin pk w jwtt secrets' w' :
  SetUserPublicKey now secrets pin pk w = (Ok (jwtt, secrets'), w') ->
  exists s,
    decryptUserSecrets (core w) secrets = Ok s /\
    verifyPin s pin = Ok tt /\
    PublicKey s = None /\
    core w' = core w /\
    decryptUserSecrets (core w') secrets' = Ok (setPublicKey s pk) /\
    authJWT (core w) now (setPublicKey s pk) = Ok jwtt.
Proof.
  unfold SetUserPublicKey, decryptUserSecretsIfPinOK, encryptUserSecrets.
  unfold_M. destruct w as [c rnd]. cbn [core entropy].
  destruct (decryptUserSecrets c secrets) as [s|] eqn:Hdec; [|discriminate].
  destruct (verifyPin s pin) as [[]|] eqn:Hpin; [|discriminate].
  destruct (PublicKey s) eqn:Hpk; [discriminate|].
  destruct (seal _ _ _) as [[b rest]|] eqn:Hseal; [|discriminate].
  cbn [core entropy].
  destruct (authJWT c now (setPublicKey s pk)) as [t|] eqn:Hjwt;
    [|discriminate].
  intros [= <- <- <-]. exists s. cbn [core].
  repeat split; try assumption.
  unfold decryptUserSecrets. eapply unseal_seal. exact Hseal.
Qed.

(** C2, as the code has it.  For a blob whose plaintext has no public key,
    a successful [SetUserPublicKey] with the correct PIN writes the
    supplied public key and leaves the token-id as it was: the new blob
    opens to the old secrets with the key set, the returned token is minted
    for that same token-id, and every access token that verified against
    the old blob verifies against the new one. *)
Theorem SetUserPublicKey_keeps_token_id
    (w w' : World) (now : Z) (secrets secrets' : UserSecrets) (pin jwtt : string)
    (pk : option ecdsa_PublicKey) :
  SetUserPublicKey now secrets pin pk w = (Ok (jwtt, secrets'), w') ->
  exists s,
    decryptUserSecrets (core w) secrets = Ok s /\
    PublicKey s = None /\
    verifyPin s pin = Ok tt /\
    decryptUserSecrets (core w') secrets' = Ok (setPublicKey s pk) /\
    PublicKey (setPublicKey s pk) = pk /\
    ID (setPublicKey s pk) = ID s /\
    authJWT (core w) now (setPublicKey s pk) = Ok jwtt /\
    forall now' t s0,
      verifyAccess (core w) now' secrets t = Ok s0 ->
      verifyAccess (core w') now' secrets' t = Ok (setPublicKey s0 pk).
Proof.
  intros H.
  apply SetUserPublicKey_Ok in H as (s & Hdec & Hpin & Hpk & Hc & Hdec' & Ht).
  exists s. repeat split; try assumption.
  intros now' t s0 Hv.
  apply verifyAccess_Ok in Hv
    as (token & ss & sg & b64 & HU & Hm & Hval & Hs & He & Hid & Hd & Hdec0).
  rewrite Hdec in Hdec0. injection Hdec0 as <-.
  apply verifyAccess_Ok. exists token, ss, sg, b64. rewrite Hc.
  repeat split; try assumption. by rewrite <- Hc.
Qed.

End AccessClaims.

Section AccessRuns.

#[local] Existing Instance Toy.Env.


(** The run of C3 in the toy environment: the PIN-change request is a
    well-signed ES256 token and is no access token. *)
Lemma verifyAccess_rejects_other_algorithms_witness :
  let jwt := Scenario.changePinJWT in
  let p := Toy.toy_ParseUnverified jwt in
  (p = Some (mkParsed Scenario.changePinToken
               (Toy.toy_signingString Scenario.changePinToken)
               (Toy.sign 5 (Toy.toy_signingString Scenario.changePinToken)))
   /\ Method Scenario.changePinToken <> SigningMethodRS256) /\
  verifyAccess Scenario.config 1100 Scenario.keyedBlob jwt
  = Err ErrInvalidJWT /\
  ValidateJWT Scenario.config 1100 Scenario.keyedBlob jwt
  = Err ErrInvalidJWT.
Proof.
  intros jwt p.
  assert (p = Some (mkParsed Scenario.changePinToken
               (Toy.toy_signingString Scenario.changePinToken)
               (Toy.sign 5 (Toy.toy_signingString Scenario.changePinToken))))
    as H1 by (vm_compute; reflexivity).
  assert (Method Scenario.changePinToken <> SigningMethodRS256) as H2
    by (vm_compute; discriminate).
  split; [exact (conj H1 H2)|].
  exact (verifyAccess_rejects_other_algorithms
           Scenario.config 1100 Scenario.keyedBlob jwt _ H1 H2).
Defined.

(** C4 on the code.  The token minted at 1000 expires at 1900.  It
    verifies at 1899; at 2000, correctly signed and carrying the token-id
    of the blob, it is refused with [ErrInvalidJWT], not [ErrExpiredJWT]:
    [jwt.Parse] and [claims.Valid()] check the expiry before line 173. *)
Theorem expired_token_is_refused_as_invalid :
  let c := Scenario.config in
  let b := Scenario.keyedBlob in
  let t := Scenario.minted 1000 Scenario.keyedUser in
  authClaims c Scenario.keyedUser 1000 !! "exp" = Some (JNumber 1900) /\
  verifyAccess c 1899 b t = Ok Scenario.keyedUser /\
  verifyAccess c 2000 b t = Err ErrInvalidJWT /\
  ValidateJWT c 2000 b t = Err ErrInvalidJWT.
Proof. vm_compute. repeat split; reflexivity. Qed.

(** C2 as stated fails: registering a client key for the legacy user
    returns a blob with the token-id of the old blob, and the token minted
    at 1000, before the call, still verifies against the new blob. *)
Lemma SetUserPublicKey_rotation_counterexample :
  let w := Scenario.start in
  let b := Scenario.legacyBlob in
  let call := SetUserPublicKey 1100 b "1234" (Some Scenario.clientKey) in
  let b' := (Scenario.value ("", []) call w).2 in
  let s' := setPublicKey Scenario.legacyUser (Some Scenario.clientKey) in
  decryptUserSecrets (core w) b = Ok Scenario.legacyUser /\
  PublicKey Scenario.legacyUser = None /\
  is_Ok (call w).1 = true /\
  decryptUserSecrets (core (call w).2) b' = Ok s' /\
  ID s' = ID Scenario.legacyUser /\
  verifyAccess (core (call w).2) 1200 b'
    (Scenario.minted 1000 Scenario.legacyUser) = Ok s'.
Proof. vm_compute. repeat split; reflexivity. Qed.

(** The run of the amended C2 in the toy environment. *)
Lemma SetUserPublicKey_keeps_token_id_witness :
  let w := Scenario.start in
  let b := Scenario.legacyBlob in
  let pk := Some Scenario.clientKey in
  let call := SetUserPublicKey 1100 b "1234" pk in
  let jwtt := (Scenario.value ("", []) call w).1 in
  let b' := (Scenario.value ("", []) call w).2 in
  let w' := Scenario.after call w in
  call w = (Ok (jwtt, b'), w') /\
  exists s,
    decryptUserSecrets (core w) b = Ok s /\
    PublicKey s = None /\
    verifyPin s "1234" = Ok tt /\
    decryptUserSecrets (core w') b' = Ok (setPublicKey s pk) /\
    PublicKey (setPublicKey s pk) = pk /\
    ID (setPublicKey s pk) = ID s /\
    authJWT (core w) 1100 (setPublicKey s pk) = Ok jwtt /\
    forall now' t s0,
      verifyAccess (core w) now' b t = Ok s0 ->
      verifyAccess (core w') now' b' t = Ok (setPublicKey s0 pk).
Proof.
  intros w b pk call jwtt b' w'.
  assert (call w = (Ok (jwtt, b'), w')) as H by (vm_compute; reflexivity).
  split; [exact H|].
  exact (SetUserPublicKey_keeps_token_id w w' 1100 b b' "1234" jwtt pk H).
Defined.

End AccessRuns.

(* ===================================================================== *)
(** * The claims about auth challenges                                    *)
(* ===================================================================== *)

Section ChallengeClaims.

Context `{Env : KeyshareEnv}.

Lemma decryptUserSecretsIfPinOK_Ok c secrets pin s :
  decryptUserSecretsIfPinOK c secrets pin = Ok s
  <-> decryptUserSecrets c secrets = Ok s /\ verifyPin s pin = Ok tt.
Proof.
  unfold decryptUserSecretsIfPinOK. split.
  - destruct (decryptUserSecrets c secrets) as [s'|]; [|discriminate].
    destruct (verifyPin s' pin) as [[]|] eqn:Hp; [|discriminate].
    intros [= <-]. by split.
  - intros [-> ->]. reflexivity.
Qed.

(** The only error of [verifyPin] is [ErrInvalidPin]. *)
Lemma verifyPin_Err s pin e : verifyPin s pin = Err e -> e = ErrInvalidPin.
Proof. unfold verifyPin. destruct (Z.eqb _ 1); congruence. Qed.

(** [ValidateAuth] after a failed PIN check: nothing else has run. *)
Lemma ValidateAuth_pin_failed now secrets response pin w e :
  decryptUserSecretsIfPinOK (core w) secrets pin = Err e ->
  ValidateAuth now secrets response pin w = (Err e, w).
Proof.
  intros H. unfold ValidateAuth. unfold_M. by rewrite H.
Qed.

(** [ValidateAuth] after a successful PIN check: the stored challenge is
    taken, then the response is checked against it. *)
Lemma ValidateAuth_pin_ok now secrets response pin w s :
  decryptUserSecretsIfPinOK (core w) secrets pin = Ok s ->
  ValidateAuth now secrets response pin w
  = (match authChallenges (core w) !! string_of_bytes (ID s) with
     | None =>
         match PublicKey s with
         | Some _ => Err ErrChallengeResponseRequired
         | None => authJWT (core w) now s
         end
     | Some ch =>
         match signed_Verify (PublicKey s)
                 (marshalChallengeData ch pin) response with
         | Ok _ => authJWT (core w) now s
         | Err e => Err e
         end
     end, taken (ID s) w).
Proof.
  intros H. unfold ValidateAuth, verifyChallengeResponse, challenge, taken.
  unfold_M. rewrite H. cbn [core entropy].
  destruct (authChallenges (core w) !! string_of_bytes (ID s)) as [ch|].
  - destruct (signed_Verify _ _ _) as [[]|]; reflexivity.
  - destruct (PublicKey s); reflexivity.
Qed.




(** With a client key set and no challenge stored, the outcome of
    [ValidateAuth] is decided by the PIN alone. *)
Lemma ValidateAuth_no_challenge w now secrets response pin s pk :
  decryptUserSecrets (core w) secrets = Ok s ->
  PublicKey s = Some pk ->
  authChallenges (core w) !! string_of_bytes (ID s) = None ->
  (ValidateAuth now secrets response pin w).1
  = match verifyPin s pin with
    | Ok _ => Err ErrChallengeResponseRequired
    | Err e => Err e
    end.
Proof.
  intros Hdec Hpk Hch.
  destruct (verifyPin s pin) as [[]|e] eqn:Hpin.
  - rewrite (ValidateAuth_pin_ok _ _ _ _ _ s)
      by (apply decryptUserSecretsIfPinOK_Ok; by split).
    by rewrite Hch, Hpk.
  - erewrite ValidateAuth_pin_failed; [reflexivity|].
    unfold decryptUserSecretsIfPinOK. by rewrite Hdec, Hpin.
Qed.

(** C6.  For a blob whose secrets hold a client public key and for which
    no challenge is stored, [ValidateAuth] fails whatever the PIN and the
    response, and with the correct PIN the error is
    [ErrChallengeResponseRequired]. *)
Theorem ValidateAuth_requires_challenge_response
    (w : World) (now : Z) (secrets : UserSecrets) (response : bytes)
    (pin : string) (s : unencryptedUserSecrets) (pk : ecdsa_PublicKey) :
  decryptUserSecrets (core w) secrets = Ok s ->
  PublicKey s = Some pk ->
  authChallenges (core w) !! string_of_bytes (ID s) = None ->
  (exists e, (ValidateAuth now secrets response pin w).1 = Err e) /\
  (verifyPin s pin = Ok tt ->
   (ValidateAuth now secrets response pin w).1
   = Err ErrChallengeResponseRequired).
Proof.
  intros Hdec Hpk Hch.
  rewrite (ValidateAuth_no_challenge w now secrets response pin s pk)
    by assumption.
  split.
  - destruct (verifyPin s pin) as [[]|e]; eauto.
  - by intros ->.
Qed.


(** C10.  With a challenge stored for the user, a [ValidateAuth] with an
    incorrect PIN returns [ErrInvalidPin] and leaves the world as it was;
    the next attempt with the correct PIN is checked against the stored
    challenge. *)
Theorem failed_PIN_keeps_challenge
    (w : World) (now : Z) (secrets : UserSecrets) (response : bytes)
    (pin : string) (s : unencryptedUserSecrets) (ch : bytes) :
  decryptUserSecrets (core w) secrets = Ok s ->
  authChallenges (core w) !! string_of_bytes (ID s) = Some ch ->
  verifyPin s pin <> Ok tt ->
  let w' := (ValidateAuth now secrets response pin w).2 in
  ValidateAuth now secrets response pin w = (Err ErrInvalidPin, w) /\
  authChallenges (core w') !! string_of_bytes (ID s) = Some ch /\
  forall now' response' pin',
    verifyPin s pin' = Ok tt ->
    (ValidateAuth now' secrets response' pin' w').1
    = match signed_Verify (PublicKey s)
              (marshalChallengeData ch pin') response' with
      | Ok _ => authJWT (core w) now' s
      | Err e => Err e
      end.
Proof.
  intros Hdec Hch Hpin w'.
  assert (ValidateAuth now secrets response pin w = (Err ErrInvalidPin, w))
    as Hfail.
  { apply ValidateAuth_pin_failed. unfold decryptUserSecretsIfPinOK.
    rewrite Hdec. destruct (verifyPin s pin) as [[]|e] eqn:Hp;
      [contradiction|]. by rewrite (verifyPin_Err _ _ _ Hp). }
  subst w'. rewrite Hfail. cbn [snd].
  split; [reflexivity|]. split; [exact Hch|].
  intros now' response' pin' Hp'.
  rewrite (ValidateAuth_pin_ok _ _ _ _ _ s)
    by (apply decryptUserSecretsIfPinOK_Ok; by split).
  by rewrite Hch.
Qed.

(** A failed decryption stops [ValidateAuth] in the same way. *)
Lemma failed_decryption_keeps_challenges w now secrets response pin e :
  decryptUserSecrets (core w) secrets = Err e ->
  ValidateAuth now secrets response pin w = (Err e, w).
Proof.
  intros H. apply ValidateAuth_pin_failed.
  unfold decryptUserSecretsIfPinOK. by rewrite H.
Qed.

End ChallengeClaims.

(* ===================================================================== *)
(** * The claims about commitments and responses                          *)
(* ===================================================================== *)

Section ProofClaims.

Context `{Env : KeyshareEnv}.

Lemma buildKeyList_missing c keyIDs keyList :
  (exists k, k ∈ keyIDs /\ trustedKeys c !! k = None) ->
  buildKeyList c keyIDs keyList = Err ErrKeyNotFound.
Proof.
  revert keyList. induction keyIDs as [|k' rest IH]; intros keyList (k & Hin & Hk).
  - by apply elem_of_nil in Hin.
  - simpl. destruct (trustedKeys c !! k') as [key|] eqn:Hk'; [|reflexivity].
    apply IH. exists k. split; [|assumption].
    apply elem_of_cons in Hin as [->|Hin]; [congruence|assumption].
Qed.

Lemma buildKeyList_trusted c keyIDs keyList :
  (forall k, k ∈ keyIDs -> is_Some (trustedKeys c !! k)) ->
  exists keys, buildKeyList c keyIDs keyList = Ok (keyList ++ keys)%list /\
               Forall2 (fun k key => trustedKeys c !! k = Some key) keyIDs keys.
Proof.
  revert keyList. induction keyIDs as [|k rest IH]; intros keyList Hall.
  - exists []. by rewrite app_nil_r.
  - simpl. destruct (Hall k) as [key Hk]; [by left|]. rewrite Hk.
    destruct (IH (keyList ++ [key])%list) as (keys & -> & Hkeys).
    { intros k' Hk'. apply Hall. by right. }
    exists (key :: keys). split; [by rewrite <- app_assoc|].
    by constructor.
Qed.

(** The successful runs of [GenerateCommitments] store the commit secret
    under the commit-id that is returned. *)
Lemma GenerateCommitments_Ok now secrets accessToken keyIDs w commitments
    cid w' :
  GenerateCommitments now secrets accessToken keyIDs w
  = (Ok (commitments, cid), w') ->
  exists commitSecret,
    commitmentData (core w') = <[cid := commitSecret]> (commitmentData (core w)) /\
    sameConfig (core w) (core w').
Proof.
  unfold GenerateCommitments. unfold_M. destruct w as [c rnd].
  cbn [core entropy].
  destruct (buildKeyList c keyIDs []) as [keyList|]; [|discriminate].
  destruct (verifyAccess c now secrets accessToken) as [s|]; [|discriminate].
  destruct (NewKeyshareCommitments _ _ _) as [[[commitSecret cs] rest]|];
    [|discriminate].
  cbn [core entropy].
  destruct (Nat.ltb _ _); [discriminate|]. cbn [core entropy].
  intros [= <- <- <-]. exists commitSecret. cbn. split; [reflexivity|].
  by repeat split.
Qed.

(** [GenerateResponse] on a request that passes the checks: the commit is
    fetched and deleted, and the answer is computed from it. *)
Lemma GenerateResponse_valid now secrets accessToken cid ch keyID w :
  validRequest (core w) now secrets accessToken ch keyID = true ->
  exists s key,
    verifyAccess (core w) now secrets accessToken = Ok s /\
    trustedKeys (core w) !! keyID = Some key /\
    GenerateResponse now secrets accessToken cid ch keyID w
    = (match commitmentData (core w) !! cid with
       | None => Err ErrUnknownCommit
       | Some commit => responseJWT (core w) now s commit ch key
       end, fetched cid w).
Proof.
  unfold validRequest. intros H.
  apply andb_true_iff in H as [H Hacc]. apply andb_true_iff in H as [Hch Hkey].
  apply negb_true_iff in Hch. apply bool_decide_eq_true in Hkey as [key Hkey].
  destruct (verifyAccess (core w) now secrets accessToken) as [s|] eqn:Hv;
    [|discriminate].
  exists s, key. repeat split; try assumption.
  unfold GenerateResponse, fetched, responseJWT. unfold_M.
  rewrite Hch, Hkey, Hv. cbn [core entropy].
  by destruct (commitmentData (core w) !! cid).
Qed.



(** One call answers [cid] only by taking a stored commit, and stores one
    under [cid] only by issuing [cid]. *)
Lemma step_answers_bounded call w cid :
  (stored cid (step call w).2
   + (if answers cid call (step call w).1 then 1 else 0)
   <= stored cid w + (if issues cid (step call w).1 then 1 else 0))%nat.
Proof.
  unfold stored. destruct w as [c rnd].
  destruct call; simpl;
    unfold serve, NewUserSecrets, ValidateAuth, ChangePin,
      GenerateCommitments, GenerateResponse, GenerateChallenge,
      SetUserPublicKey, verifyChallengeResponse, challenge,
      encryptUserSecrets;
    unfold_M; simpl;
    repeat (case_scrutinee; simpl in *; try lia);
    repeat match goal with
           | H : (_ =? _)%Z = true |- _ => apply Z.eqb_eq in H; subst
           | H : (_ =? _)%Z = false |- _ => apply Z.eqb_neq in H
           | H : delete _ _ !! _ = Some _ |- _ =>
               apply lookup_delete_Some in H as [? ?]
           | H : delete _ _ !! _ = None |- _ =>
               apply lookup_delete_None in H as [?|?]
           | H : <[_ := _]> _ !! _ = Some _ |- _ =>
               apply lookup_insert_Some in H as [[? ?]|[? ?]]
           | H : <[_ := _]> _ !! _ = None |- _ =>
               apply lookup_insert_None in H as [? ?]
           end;
    try congruence; try lia.
Qed.

(** In every run, a commit-id is answered at most as often as it was
    issued, counting a commit that was stored at the start. *)
Lemma answers_bounded_by_issues calls w cid :
  (stored cid (run calls w).2 + answered cid calls (run calls w).1
   <= stored cid w + issued cid (run calls w).1)%nat.
Proof.
  revert w. induction calls as [|call calls IH]; intros w; simpl; [lia|].
  pose proof (step_answers_bounded call w cid).
  specialize (IH (step call w).2). lia.
Qed.


(** C8, as the code has it.  [GenerateCommitments] resolves the key
    identifiers before it verifies the access token: with an identifier
    that is not in the registry the call returns [ErrKeyNotFound] whatever
    the token; with every identifier in the registry and a token that fails
    verification it returns the error of the verification.  In both cases
    nothing is stored. *)
Theorem GenerateCommitments_resolves_keys_first
    (w : World) (now : Z) (secrets : UserSecrets) (accessToken : string)
    (keyIDs : list PublicKeyIdentifier) :
  ((exists k, k ∈ keyIDs /\ trustedKeys (core w) !! k = None) ->
   GenerateCommitments now secrets accessToken keyIDs w
   = (Err ErrKeyNotFound, w)) /\
  ((forall k, k ∈ keyIDs -> is_Some (trustedKeys (core w) !! k)) ->
   forall e, verifyAccess (core w) now secrets accessToken = Err e ->
   GenerateCommitments now secrets accessToken keyIDs w = (Err e, w) /\
   (e = ErrInvalidJWT \/ e = ErrExpiredJWT \/
    decryptUserSecrets (core w) secrets = Err e)).
Proof.
  split.
  - intros Hmiss. unfold GenerateCommitments. unfold_M.
    by rewrite (buildKeyList_missing _ _ _ Hmiss).
  - intros Hall e Hv. split; [|by apply verifyAccess_Err in Hv].
    unfold GenerateCommitments. unfold_M.
    destruct (buildKeyList_trusted (core w) keyIDs [] Hall) as (keys & -> & _).
    by rewrite Hv.
Qed.

(** C9.  [GenerateResponse] checks the challenge first: a negative
    challenge or one longer than [Lh] bits is refused with
    [ErrInvalidChallenge] whatever the key, the token and the commit-id,
    and the world is left as it was.  A challenge with [0 <= challenge] and
    [BitLen challenge <= Lh] passes: the call goes on to the key (an
    unknown key gives [ErrKeyNotFound]), to the access token (its error is
    returned), and to the commit, with nothing stored or deleted before the
    access token has verified. *)
Theorem GenerateResponse_checks_challenge_first
    (w : World) (now : Z) (secrets : UserSecrets) (accessToken : string)
    (cid ch : Z) (keyID : PublicKeyIdentifier) :
  (ch < 0 \/ Z.of_N Lh < BitLen ch ->
   GenerateResponse now secrets accessToken cid ch keyID w
   = (Err ErrInvalidChallenge, w)) /\
  (0 <= ch /\ BitLen ch <= Z.of_N Lh ->
   (trustedKeys (core w) !! keyID = None ->
    GenerateResponse now secrets accessToken cid ch keyID w
    = (Err ErrKeyNotFound, w)) /\
   (forall key e,
      trustedKeys (core w) !! keyID = Some key ->
      verifyAccess (core w) now secrets accessToken = Err e ->
      GenerateResponse now secrets accessToken cid ch keyID w = (Err e, w)) /\
   (forall key s,
      trustedKeys (core w) !! keyID = Some key ->
      verifyAccess (core w) now secrets accessToken = Ok s ->
      GenerateResponse now secrets accessToken cid ch keyID w
      = (match commitmentData (core w) !! cid with
         | None => Err ErrUnknownCommit
         | Some commit => responseJWT (core w) now s commit ch key
         end, fetched cid w))).
Proof.
  split.
  - intros Hbad. unfold GenerateResponse. unfold_M.
    assert (Z.ltb (Z.of_N Lh) (BitLen ch) || Z.ltb ch 0 = true) as ->;
      [|reflexivity].
    apply orb_true_iff. destruct Hbad as [Hneg|Hlong].
    + right. by apply Z.ltb_lt.
    + left. by apply Z.ltb_lt.
  - intros [Hpos Hlen].
    assert (Z.ltb (Z.of_N Lh) (BitLen ch) || Z.ltb ch 0 = false) as Hguard.
    { apply orb_false_iff. split; apply Z.ltb_ge; lia. }
    unfold GenerateResponse, fetched, responseJWT. unfold_M.
    rewrite Hguard. repeat split.
    + by intros ->.
    + intros key e -> ->. reflexivity.
    + intros key s -> ->. cbn [core entropy].
      by destruct (commitmentData (core w) !! cid).
Qed.

End ProofClaims.

(* ===================================================================== *)
(** * The claims on concrete runs                                         *)
(* ===================================================================== *)

Section Runs.

#[local] Existing Instance Toy.Env.

(** The run of C6: the user with a client key, no challenge issued, the
    correct PIN. *)
Lemma ValidateAuth_requires_challenge_response_witness :
  let w := Scenario.start in
  let b := Scenario.keyedBlob in
  let s := Scenario.keyedUser in
  (decryptUserSecrets (core w) b = Ok s /\
   PublicKey s = Some Scenario.clientKey /\
   authChallenges (core w) !! string_of_bytes (ID s) = None /\
   verifyPin s "1234" = Ok tt) /\
  (exists e, (ValidateAuth 1100 b [] "1234" w).1 = Err e) /\
  (ValidateAuth 1100 b [] "1234" w).1 = Err ErrChallengeResponseRequired.
Proof.
  intros w b s.
  assert (decryptUserSecrets (core w) b = Ok s) as H1
    by (vm_compute; reflexivity).
  assert (PublicKey s = Some Scenario.clientKey) as H2 by reflexivity.
  assert (authChallenges (core w) !! string_of_bytes (ID s) = None) as H3
    by (vm_compute; reflexivity).
  assert (verifyPin s "1234" = Ok tt) as H4 by (vm_compute; reflexivity).
  split; [exact (conj H1 (conj H2 (conj H3 H4)))|].
  destruct (ValidateAuth_requires_challenge_response w 1100 b [] "1234" s
              Scenario.clientKey H1 H2 H3) as [Hfail Hcrr].
  split; [exact Hfail|exact (Hcrr H4)].
Defined.


(** The run of C10: a challenge is stored, the PIN 0000 is wrong, the
    next attempt with the PIN 1234 and a valid response succeeds. *)
Lemma failed_PIN_keeps_challenge_witness :
  let b := Scenario.keyedBlob in
  let s := Scenario.keyedUser in
  let ch := Scenario.value [] (GenerateChallenge b) Scenario.start in
  let w := Scenario.after (GenerateChallenge b) Scenario.start in
  let w' := (ValidateAuth 1100 b [] "0000" w).2 in
  (decryptUserSecrets (core w) b = Ok s /\
   authChallenges (core w) !! string_of_bytes (ID s) = Some ch /\
   verifyPin s "0000" <> Ok tt /\
   verifyPin s "1234" = Ok tt) /\
  ValidateAuth 1100 b [] "0000" w = (Err ErrInvalidPin, w) /\
  authChallenges (core w') !! string_of_bytes (ID s) = Some ch /\
  (ValidateAuth 1101 b (Scenario.answer ch "1234") "1234" w').1
  = authJWT (core w) 1101 s.
Proof.
  intros b s ch w w'.
  assert (decryptUserSecrets (core w) b = Ok s) as H1
    by (vm_compute; reflexivity).
  assert (authChallenges (core w) !! string_of_bytes (ID s) = Some ch) as H2
    by (vm_compute; reflexivity).
  assert (verifyPin s "0000" <> Ok tt) as H3 by (vm_compute; discriminate).
  assert (verifyPin s "1234" = Ok tt) as H4 by (vm_compute; reflexivity).
  split; [exact (conj H1 (conj H2 (conj H3 H4)))|].
  destruct (failed_PIN_keeps_challenge w 1100 b [] "0000" s ch H1 H2 H3)
    as (Hfail & Hkept & Hnext).
  split; [exact Hfail|]. split; [exact Hkept|].
  subst w'. rewrite (Hnext 1101 (Scenario.answer ch "1234") "1234" H4).
  vm_compute. reflexivity.
Defined.


(** C8 as stated fails: with a token that does not verify and a key
    identifier that is not in the registry, [GenerateCommitments] returns
    [ErrKeyNotFound], not the access error. *)
Lemma GenerateCommitments_order_counterexample :
  let w := Scenario.start in
  let b := Scenario.keyedBlob in
  verifyAccess (core w) 1100 b "fakeauthorization" = Err ErrInvalidJWT /\
  trustedKeys (core w) !! ("test.test", 9%N) = None /\
  GenerateCommitments 1100 b "fakeauthorization"
    [("test.test", 3%N); ("test.test", 9%N)] w
  = (Err ErrKeyNotFound, w).
Proof. vm_compute. repeat split; reflexivity. Qed.

(** The run of the amended C8: the unknown key wins over the bad token,
    and with trusted keys only the bad token gives [ErrInvalidJWT]. *)
Lemma GenerateCommitments_resolves_keys_first_witness :
  let w := Scenario.start in
  let b := Scenario.keyedBlob in
  let known := ("test.test", 3%N) in
  let unknown := ("test.test", 9%N) in
  ((exists k, k ∈ [known; unknown] /\ trustedKeys (core w) !! k = None) /\
   (forall k, k ∈ [known] -> is_Some (trustedKeys (core w) !! k)) /\
   verifyAccess (core w) 1100 b "fakeauthorization" = Err ErrInvalidJWT) /\
  GenerateCommitments 1100 b "fakeauthorization" [known; unknown] w
  = (Err ErrKeyNotFound, w) /\
  GenerateCommitments 1100 b "fakeauthorization" [known] w
  = (Err ErrInvalidJWT, w).
Proof.
  intros w b known unknown.
  assert (exists k, k ∈ [known; unknown] /\ trustedKeys (core w) !! k = None)
    as H1.
  { exists unknown. split; [set_solver|vm_compute; reflexivity]. }
  assert (forall k, k ∈ [known] -> is_Some (trustedKeys (core w) !! k)) as H2.
  { intros k Hk. apply list_elem_of_singleton in Hk as ->.
    vm_compute. eexists; reflexivity. }
  assert (verifyAccess (core w) 1100 b "fakeauthorization"
          = Err ErrInvalidJWT) as H3 by (vm_compute; reflexivity).
  split; [exact (conj H1 (conj H2 H3))|].
  split.
  - exact (proj1 (GenerateCommitments_resolves_keys_first w 1100 b
                    "fakeauthorization" [known; unknown]) H1).
  - exact (proj1 (proj2 (GenerateCommitments_resolves_keys_first w 1100 b
                           "fakeauthorization" [known]) H2 _ H3)).
Defined.

(** The run of C9: the challenge -1 and the challenge 2^256 are refused
    although the key is unknown and the token is no token; the challenge
    2^256 - 1 passes and the unknown key is reported. *)
Lemma GenerateResponse_checks_challenge_first_witness :
  let w := Scenario.start in
  let b := Scenario.keyedBlob in
  let unknown := ("test.test", 9%N) in
  (Z.of_N Lh < BitLen (2 ^ 256) /\
   (0 <= 2 ^ 256 - 1 /\ BitLen (2 ^ 256 - 1) <= Z.of_N Lh) /\
   trustedKeys (core w) !! unknown = None) /\
  GenerateResponse 1100 b "fakeauthorization" 7 (-1) unknown w
  = (Err ErrInvalidChallenge, w) /\
  GenerateResponse 1100 b "fakeauthorization" 7 (2 ^ 256) unknown w
  = (Err ErrInvalidChallenge, w) /\
  GenerateResponse 1100 b "fakeauthorization" 7 (2 ^ 256 - 1) unknown w
  = (Err ErrKeyNotFound, w).
Proof.
  intros w b unknown.
  assert (Z.of_N Lh < BitLen (2 ^ 256)) as H1 by (vm_compute; reflexivity).
  assert (0 <= 2 ^ 256 - 1 /\ BitLen (2 ^ 256 - 1) <= Z.of_N Lh) as H2
    by (split; vm_compute; discriminate).
  assert (trustedKeys (core w) !! unknown = None) as H3
    by (vm_compute; reflexivity).
  split; [exact (conj H1 (conj H2 H3))|].
  split; [|split].
  - apply (proj1 (GenerateResponse_checks_challenge_first w 1100 b
                    "fakeauthorization" 7 (-1) unknown)).
    left. lia.
  - apply (proj1 (GenerateResponse_checks_challenge_first w 1100 b
                    "fakeauthorization" 7 (2 ^ 256) unknown)).
    right. exact H1.
  - exact (proj1 (proj2 (GenerateResponse_checks_challenge_first w 1100 b
                           "fakeauthorization" 7 (2 ^ 256 - 1) unknown) H2)
             H3).
Defined.

End Runs.

(* ===================================================================== *)
(** * Further properties of access tokens                                 *)
(* ===================================================================== *)

Section TokenFacts.

Context `{Env : KeyshareEnv}.






(** [verifyAccess] insists on an expiry: a token signed with RS256 by the
    server key whose claims are valid but carry no [exp], or an [exp] of
    0, is refused with [ErrExpiredJWT], whatever its token-id and the
    blob. *)
Theorem verifyAccess_requires_exp
    (c : Core) (now : Z) (secrets : UserSecrets) (jwt : string)
    (token : Token) (ss : string) (sg : bytes) :
  ParseUnverified jwt = Some (mkParsed token ss sg) ->
  Method token = SigningMethodRS256 ->
  Verify SigningMethodRS256 ss sg (RSAKey (rsa_Public (jwtPrivateKey c)))
  = true ->
  Valid (Claims token) now = true ->
  Claims token !! "exp" = None \/ Claims token !! "exp" = Some (JNumber 0) ->
  verifyAccess c now secrets jwt = Err ErrExpiredJWT /\
  ValidateJWT c now secrets jwt = Err ErrExpiredJWT.
Proof.
  intros HU Hm Hs Hv Hexp.
  assert (verifyAccess c now secrets jwt = Err ErrExpiredJWT) as Hr.
  { unfold verifyAccess.
    assert (Parse now jwt
      (fun token => if negb (isRS256 (Method token)) then Err ErrInvalidJWT
                    else Ok (RSAKey (rsa_Public (jwtPrivateKey c))))
      = Ok token) as ->.
    { apply Parse_access_Ok. by exists ss, sg. }
    rewrite Hv. cbn [negb].
    assert (VerifyExpiresAt (Claims token) now true = false) as ->;
      [|reflexivity].
    unfold VerifyExpiresAt, verifyTimeClaim.
    destruct Hexp as [->| ->]; reflexivity. }
  split; [exact Hr|]. unfold ValidateJWT. by rewrite Hr.
Qed.

(** No sequence of calls changes the keys, the issuer, the token lifetime
    or the registry of trusted keys, and so none changes the verdict of
    [verifyAccess] on a blob and a token: access is withdrawn only through
    the blob. *)
Theorem calls_keep_configuration_and_access
    (calls : list Call) (w : World) (now : Z) (secrets : UserSecrets)
    (jwt : string) :
  sameConfig (core w) (core (run calls w).2) /\
  verifyAccess (core (run calls w).2) now secrets jwt
  = verifyAccess (core w) now secrets jwt /\
  ValidateJWT (core (run calls w).2) now secrets jwt
  = ValidateJWT (core w) now secrets jwt.
Proof.
  pose proof (run_sameConfig calls w) as Hc.
  pose proof (verifyAccess_sameConfig _ _ now secrets jwt Hc) as Hv.
  split; [exact Hc|]. split; [by rewrite Hv|].
  unfold ValidateJWT. by rewrite Hv.
Qed.

End TokenFacts.

(* ===================================================================== *)
(** * Further properties of the authentication flow                       *)
(* ===================================================================== *)

Section AuthFacts.

Context `{Env : KeyshareEnv}.


(** Decryption reads the storage key only. *)
Lemma decryptUserSecrets_sameConfig c c' secrets :
  sameConfig c c' -> decryptUserSecrets c secrets = decryptUserSecrets c' secrets.
Proof. intros (Hk & _). unfold decryptUserSecrets. by rewrite Hk. Qed.

(** The successful runs of [GenerateChallenge], with the length of the
    challenge. *)
Lemma GenerateChallenge_Ok_length secrets w ch w' :
  GenerateChallenge secrets w = (Ok ch, w') ->
  exists s pk,
    decryptUserSecrets (core w) secrets = Ok s /\
    PublicKey s = Some pk /\
    ch = take 32 (entropy w) /\
    length ch = 32%nat /\
    w' = mkWorld (set_authChallenges (<[string_of_bytes (ID s) := ch]>)
                    (core w)) (drop 32 (entropy w)).
Proof.
  unfold GenerateChallenge. unfold_M. destruct w as [c rnd]. cbn [core entropy].
  destruct (decryptUserSecrets c secrets) as [s|]; [|discriminate].
  destruct (PublicKey s) as [pk|] eqn:Hpk; [|discriminate].
  cbn [core entropy].
  destruct (Nat.ltb_spec (length rnd) 32); [discriminate|]. cbn [core entropy].
  intros [= <- <-]. exists s, pk. repeat split; try assumption.
  rewrite length_take. lia.
Qed.


(** [GenerateChallenge] followed by [ValidateAuth] (lines 276-296 and
    91-107): the challenge returned is the next 32 bytes of entropy, it
    replaces whatever challenge was stored for the user, and it is the one
    the response is checked against; the check decides the outcome, and the
    challenge is gone afterwards. *)
Theorem issued_challenge_is_the_one_checked
    (w0 w1 : World) (secrets : UserSecrets) (ch : bytes) (now : Z)
    (response : bytes) (pin : string) (s : unencryptedUserSecrets) :
  GenerateChallenge secrets w0 = (Ok ch, w1) ->
  decryptUserSecretsIfPinOK (core w1) secrets pin = Ok s ->
  length ch = 32%nat /\
  authChallenges (core w1) !! string_of_bytes (ID s) = Some ch /\
  (ValidateAuth now secrets response pin w1).1
  = match signed_Verify (PublicKey s) (marshalChallengeData ch pin)
            response with
    | Ok _ => authJWT (core w1) now s
    | Err e => Err e
    end /\
  authChallenges (core (ValidateAuth now secrets response pin w1).2)
    !! string_of_bytes (ID s) = None.
Proof.
  intros Hgen Hpin.
  apply GenerateChallenge_Ok_length in Hgen
    as (s0 & pk & Hdec & Hpk & _ & Hlen & ->).
  pose proof Hpin as Hpin'.
  apply decryptUserSecretsIfPinOK_Ok in Hpin' as [Hdec1 _].
  unfold decryptUserSecrets in Hdec, Hdec1. cbn in Hdec1.
  rewrite Hdec in Hdec1. injection Hdec1 as <-.
  assert (authChallenges
            (core {| core := set_authChallenges
                               <[string_of_bytes (ID s0):=ch]> (core w0);
                     entropy := drop 32 (entropy w0) |})
          !! string_of_bytes (ID s0) = Some ch) as Hstored
    by (cbn; apply lookup_insert_eq).
  split; [exact Hlen|]. split; [exact Hstored|].
  rewrite (ValidateAuth_pin_ok _ _ _ _ _ s0) by exact Hpin.
  rewrite Hstored. split; [reflexivity|].
  cbn. apply lookup_delete_eq.
Qed.

(** The successful runs of [ChangePin], with what was checked. *)
Lemma ChangePin_Ok_parsed now secrets jwtt w b' w' :
  ChangePin now secrets jwtt w = (Ok b', w') ->
  exists s pk p claims,
    decryptUserSecrets (core w) secrets = Ok s /\
    PublicKey s = Some pk /\
    ParseUnverified jwtt = Some p /\
    decodeChangePinClaims (Claims (parsedToken p)) = Some claims /\
    Valid (Claims (parsedToken p)) now = true /\
    Verify (Method (parsedToken p)) (signingString p) (signature p)
      (ECDSAKey pk) = true /\
    verifyPin s (OldPin claims) = Ok tt /\
    (String.length (NewPin claims) <= pinWidth)%nat /\
    length (take 32 (entropy w)) = 32%nat /\
    core w' = core w /\
    decryptUserSecrets (core w') b'
    = Ok (mkSecrets (pinHash (NewPin claims)) (KeyshareSecret s)
            (take 32 (entropy w)) (PublicKey s)).
Proof.
  unfold ChangePin, encryptUserSecrets, setPin, setID, ParseWithClaims.
  unfold_M. destruct w as [c rnd]. cbn [core entropy].
  destruct (decryptUserSecrets c secrets) as [s|] eqn:Hdec; [|discriminate].
  destruct (ParseUnverified jwtt) as [p|] eqn:HU; [|discriminate].
  destruct (decodeChangePinClaims _) as [claims|] eqn:Hcl; [|discriminate].
  destruct (PublicKey s) as [pk|] eqn:Hpk; [|discriminate].
  destruct (Valid _ now) eqn:Hv; [|discriminate].
  destruct (Verify _ _ _ _) eqn:Hs; [|discriminate].
  cbn [andb].
  destruct (verifyPin s (OldPin claims)) as [[]|] eqn:Hpin; [|discriminate].
  cbn [core entropy].
  destruct (Nat.ltb_spec (length rnd) 32) as [|Hlen]; [discriminate|].
  cbn [core entropy].
  destruct (Nat.ltb_spec pinWidth (String.length (NewPin claims)));
    [discriminate|].
  assert (length (take 32 rnd) = 32%nat) as Htake
    by (rewrite length_take; lia).
  rewrite Htake. cbn [Nat.eqb entropy core].
  destruct (seal _ _ _) as [[b rest]|] eqn:Hseal; [|discriminate].
  intros [= <- <-]. cbn [core].
  exists s, pk, p, claims. rewrite Hpk. repeat split; try assumption.
  unfold decryptUserSecrets. eapply unseal_seal. exact Hseal.
Qed.

(** [ChangePin] authenticates the request (lines 119-137): it succeeds
    only for a user with a client key, on a token whose signature verifies
    under that key and whose time claims are valid, and only when the old
    PIN carried by the token is the PIN of the secrets. *)
Theorem ChangePin_authenticates_the_request
    (w w' : World) (now : Z) (secrets b' : UserSecrets) (jwtt : string)
    (s : unencryptedUserSecrets) :
  ChangePin now secrets jwtt w = (Ok b', w') ->
  decryptUserSecrets (core w) secrets = Ok s ->
  exists pk p oldpin,
    PublicKey s = Some pk /\
    ParseUnverified jwtt = Some p /\
    Verify (Method (parsedToken p)) (signingString p) (signature p)
      (ECDSAKey pk) = true /\
    Valid (Claims (parsedToken p)) now = true /\
    stringField (Claims (parsedToken p)) "oldpin" = Some oldpin /\
    verifyPin s oldpin = Ok tt.
Proof.
  intros H Hdec.
  apply ChangePin_Ok_parsed in H
    as (s0 & pk & p & claims & Hdec0 & Hpk & HU & Hcl & Hv & Hs & Hpin & _).
  rewrite Hdec in Hdec0. injection Hdec0 as <-.
  exists pk, p, (OldPin claims). repeat split; try assumption.
  unfold decodeChangePinClaims in Hcl.
  destruct (stringField _ "oldpin") as [o|]; [|discriminate].
  destruct (stringField _ "newpin") as [n|]; [|discriminate].
  by injection Hcl as <-.
Qed.

(** What a successful [ChangePin] changes (lines 139-151): the new blob
    opens with the new PIN of the token and with no PIN that is stored
    differently; the keyshare secret and the client key are the old ones,
    the token-id is the 32 bytes that were drawn, and the core is
    untouched. *)
Theorem ChangePin_switches_the_PIN
    (w w' : World) (now : Z) (secrets b' : UserSecrets) (jwtt : string)
    (s : unencryptedUserSecrets) (p : Parsed) (newpin : string) :
  ChangePin now secrets jwtt w = (Ok b', w') ->
  decryptUserSecrets (core w) secrets = Ok s ->
  ParseUnverified jwtt = Some p ->
  stringField (Claims (parsedToken p)) "newpin" = Some newpin ->
  core w' = core w /\
  exists s',
    decryptUserSecretsIfPinOK (core w') b' newpin = Ok s' /\
    KeyshareSecret s' = KeyshareSecret s /\
    PublicKey s' = PublicKey s /\
    ID s' = take 32 (entropy w) /\
    length (ID s') = 32%nat /\
    forall pin,
      pinHash pin <> pinHash newpin ->
      decryptUserSecretsIfPinOK (core w') b' pin = Err ErrInvalidPin.
Proof.
  intros H Hdec HU Hnew.
  apply ChangePin_Ok_parsed in H
    as (s0 & pk & p0 & claims & Hdec0 & Hpk & HU0 & Hcl & _ & _ & _ & _
        & Hlen & Hcore & Hdec').
  rewrite Hdec in Hdec0. injection Hdec0 as <-.
  rewrite HU in HU0. injection HU0 as <-.
  assert (NewPin claims = newpin) as Hn.
  { unfold decodeChangePinClaims in Hcl.
    destruct (stringField _ "oldpin") as [o|]; [|discriminate].
    rewrite Hnew in Hcl. by injection Hcl as <-. }
  rewrite Hn in Hdec'.
  split; [exact Hcore|].
  eexists. split.
  { apply decryptUserSecretsIfPinOK_Ok. split; [exact Hdec'|].
    unfold verifyPin. cbn [Pin]. by rewrite ConstantTimeCompare_refl. }
  cbn [KeyshareSecret PublicKey ID].
  repeat split; try assumption.
  intros pin Hpin. unfold decryptUserSecretsIfPinOK. rewrite Hdec'.
  unfold verifyPin. cbn [Pin].
  destruct (Z.eqb_spec (ConstantTimeCompare (pinHash newpin) (pinHash pin)) 1)
    as [Hc|Hc]; [|reflexivity].
  apply ConstantTimeCompare_eq in Hc. congruence.
Qed.

(** [ChangePin] is closed to users without a client key (lines 125-133):
    the key function has no key to offer, so the call fails on every
    token, and nothing is read from the entropy or written. *)
Theorem ChangePin_needs_a_client_key
    (w : World) (now : Z) (secrets : UserSecrets) (jwtt : string)
    (s : unencryptedUserSecrets) :
  decryptUserSecrets (core w) secrets = Ok s ->
  PublicKey s = None ->
  exists e, ChangePin now secrets jwtt w = (Err e, w).
Proof.
  intros Hdec Hpk. unfold ChangePin, ParseWithClaims. unfold_M.
  rewrite Hdec, Hpk.
  destruct (ParseUnverified jwtt) as [p|]; [|by eexists].
  destruct (decodeChangePinClaims _); by eexists.
Qed.

(** The second run of [SetUserPublicKey] on secrets that hold a key. *)
Lemma SetUserPublicKey_taken now secrets pin pk w s pk0 :
  decryptUserSecrets (core w) secrets = Ok s ->
  PublicKey s = Some pk0 ->
  SetUserPublicKey now secrets pin pk w
  = (match verifyPin s pin with
     | Ok _ => Err (ErrOther "user already has public key")
     | Err e => Err e
     end, w).
Proof.
  intros Hdec Hpk. unfold SetUserPublicKey, decryptUserSecretsIfPinOK.
  unfold_M. rewrite Hdec.
  destruct (verifyPin s pin) as [[]|]; [|reflexivity]. by rewrite Hpk.
Qed.

(** Registering a client key is one-shot (lines 313-315): once
    [SetUserPublicKey] has stored a key, every later [SetUserPublicKey] on
    the blob it returned fails, whatever calls were served in between, and
    changes nothing; the error is [ErrInvalidPin] for a wrong PIN and
    "user already has public key" otherwise. *)
Theorem public_key_registration_is_one_shot
    (w w' : World) (now now' : Z) (secrets secrets' : UserSecrets)
    (pin pin' jwtt : string) (pk : ecdsa_PublicKey)
    (pk' : option ecdsa_PublicKey) (calls : list Call) :
  SetUserPublicKey now secrets pin (Some pk) w = (Ok (jwtt, secrets'), w') ->
  let w'' := (run calls w').2 in
  (SetUserPublicKey now' secrets' pin' pk' w''
   = (Err ErrInvalidPin, w'') \/
   SetUserPublicKey now' secrets' pin' pk' w''
   = (Err (ErrOther "user already has public key"), w'')) /\
  (is_Ok (decryptUserSecretsIfPinOK (core w'') secrets' pin') = true ->
   SetUserPublicKey now' secrets' pin' pk' w''
   = (Err (ErrOther "user already has public key"), w'')).
Proof.
  intros H w''.
  apply SetUserPublicKey_Ok in H as (s & _ & _ & _ & _ & Hdec' & _).
  assert (decryptUserSecrets (core w'') secrets'
          = Ok (setPublicKey s (Some pk))) as Hdec''.
  { rewrite <- Hdec'. symmetry. apply decryptUserSecrets_sameConfig.
    apply run_sameConfig. }
  rewrite (SetUserPublicKey_taken now' secrets' pin' pk' w''
             (setPublicKey s (Some pk)) pk Hdec'' eq_refl).
  unfold decryptUserSecretsIfPinOK. rewrite Hdec''.
  destruct (verifyPin (setPublicKey s (Some pk)) pin') as [[]|e] eqn:Hp.
  - split; [by right|]. reflexivity.
  - rewrite (verifyPin_Err _ _ _ Hp). split; [by left|]. discriminate.
Qed.

(** Registering a client key moves the user from the legacy path to
    challenge-response (lines 94-96 and 282-284): on the blob that
    [SetUserPublicKey] returned, [GenerateChallenge] issues a challenge as
    soon as 32 bytes of entropy are there, and a [ValidateAuth] with the
    correct PIN but no stored challenge is refused with
    [ErrChallengeResponseRequired], whatever calls were served in
    between. *)
Theorem registration_switches_to_challenge_response
    (w w' : World) (now now' : Z) (secrets secrets' : UserSecrets)
    (pin pin' jwtt : string) (pk : ecdsa_PublicKey) (response : bytes)
    (s : unencryptedUserSecrets) (calls : list Call) :
  SetUserPublicKey now secrets pin (Some pk) w = (Ok (jwtt, secrets'), w') ->
  decryptUserSecrets (core w) secrets = Ok s ->
  let w'' := (run calls w').2 in
  ((32 <= length (entropy w''))%nat ->
   (GenerateChallenge secrets' w'').1 = Ok (take 32 (entropy w''))) /\
  (authChallenges (core w'') !! string_of_bytes (ID s) = None ->
   verifyPin s pin' = Ok tt ->
   (ValidateAuth now' secrets' response pin' w'').1
   = Err ErrChallengeResponseRequired).
Proof.
  intros H Hdec w''.
  apply SetUserPublicKey_Ok in H as (s0 & Hdec0 & _ & _ & _ & Hdec' & _).
  rewrite Hdec in Hdec0. injection Hdec0 as <-.
  assert (decryptUserSecrets (core w'') secrets'
          = Ok (setPublicKey s (Some pk))) as Hdec''.
  { rewrite <- Hdec'. symmetry. apply decryptUserSecrets_sameConfig.
    apply run_sameConfig. }
  split.
  - intros Hlen. unfold GenerateChallenge. unfold_M. rewrite Hdec''.
    cbn [PublicKey setPublicKey].
    destruct (Nat.ltb_spec (length (entropy w'')) 32); [lia|reflexivity].
  - intros Hch Hpin.
    rewrite (ValidateAuth_no_challenge w'' now' secrets' response pin'
               (setPublicKey s (Some pk)) pk Hdec'' eq_refl Hch).
    unfold verifyPin in *. cbn [Pin setPublicKey]. by rewrite Hpin.
Qed.

(** The successful runs of [NewUserSecrets]. *)
Lemma NewUserSecrets_Ok pin pk w b w' :
  NewUserSecrets pin pk w = (Ok b, w') ->
  exists secret rest,
    NewKeyshareSecret (entropy w) = Ok (secret, rest) /\
    (String.length pin <= pinWidth)%nat /\
    length (take 32 rest) = 32%nat /\
    core w' = core w /\
    decryptUserSecrets (core w') b
    = Ok (mkSecrets (pinHash pin) secret (take 32 rest) pk).
Proof.
  unfold NewUserSecrets, encryptUserSecrets, setPin, setKeyshareSecret,
    setID, setPublicKey.
  unfold_M. destruct w as [c rnd]. cbn [core entropy].
  destruct (NewKeyshareSecret rnd) as [[secret rest]|] eqn:Hsec;
    [|discriminate].
  cbn [core entropy].
  destruct (Nat.ltb_spec (length rest) 32) as [|Hlen]; [discriminate|].
  cbn [core entropy].
  destruct (Nat.ltb_spec pinWidth (String.length pin)); [discriminate|].
  assert (length (take 32 rest) = 32%nat) as Htake
    by (rewrite length_take; lia).
  cbn [Pin KeyshareSecret ID PublicKey]. rewrite Htake.
  cbn [Nat.eqb Pin KeyshareSecret ID PublicKey core entropy].
  destruct (seal _ _ _) as [[blob rest']|] eqn:Hseal; [|discriminate].
  intros [= <- <-]. cbn [core].
  exists secret, rest. repeat split; try assumption.
  unfold decryptUserSecrets. eapply unseal_seal. exact Hseal.
Qed.

(** Enrolment round trip (lines 34-61): the blob [NewUserSecrets] returns
    opens with the PIN it was created with, to secrets that hold the
    supplied client key, the generated keyshare secret and a token-id of 32
    fresh bytes; it opens with no PIN that is stored differently, and the
    core is untouched. *)
Theorem NewUserSecrets_round_trip
    (w w' : World) (pin : string) (pk : option ecdsa_PublicKey)
    (b : UserSecrets) :
  NewUserSecrets pin pk w = (Ok b, w') ->
  core w' = core w /\
  exists s,
    decryptUserSecretsIfPinOK (core w') b pin = Ok s /\
    PublicKey s = pk /\
    length (ID s) = 32%nat /\
    (exists rest, NewKeyshareSecret (entropy w) = Ok (KeyshareSecret s, rest)
                  /\ ID s = take 32 rest) /\
    forall pin',
      pinHash pin' <> pinHash pin ->
      decryptUserSecretsIfPinOK (core w') b pin' = Err ErrInvalidPin.
Proof.
  intros H.
  apply NewUserSecrets_Ok in H
    as (secret & rest & Hsec & _ & Hlen & Hcore & Hdec).
  split; [exact Hcore|].
  eexists. split.
  { apply decryptUserSecretsIfPinOK_Ok. split; [exact Hdec|].
    unfold verifyPin. cbn [Pin]. by rewrite ConstantTimeCompare_refl. }
  cbn [KeyshareSecret PublicKey ID].
  split; [reflexivity|]. split; [exact Hlen|].
  split; [by exists rest|].
  intros pin' Hpin. unfold decryptUserSecretsIfPinOK. rewrite Hdec.
  unfold verifyPin. cbn [Pin].
  destruct (Z.eqb_spec (ConstantTimeCompare (pinHash pin) (pinHash pin')) 1)
    as [Hc|Hc]; [|reflexivity].
  apply ConstantTimeCompare_eq in Hc. congruence.
Qed.

End AuthFacts.

(* ===================================================================== *)
(** * Further properties of the proof flow and of the stores              *)
(* ===================================================================== *)

Section ProofFacts.

Context `{Env : KeyshareEnv}.

Lemma LittleEndian_bounds bs :
  0 <= LittleEndian bs < 256 ^ Z.of_nat (length bs).
Proof.
  induction bs as [|b bs IH]; [simpl; lia|].
  cbn [LittleEndian length]. rewrite Nat2Z.inj_succ, Z.pow_succ_r by lia.
  pose proof (byteZ_bounds b). lia.
Qed.

Lemma LittleEndian_uint64 bs :
  length bs = 8%nat -> 0 <= LittleEndian bs < 2 ^ 64.
Proof.
  intros H. pose proof (LittleEndian_bounds bs) as Hb. rewrite H in Hb.
  exact Hb.
Qed.

Lemma buildKeyList_Ok c keyIDs keyList l :
  buildKeyList c keyIDs keyList = Ok l ->
  exists keys, l = (keyList ++ keys)%list /\
               Forall2 (fun k key => trustedKeys c !! k = Some key) keyIDs keys.
Proof.
  revert keyList. induction keyIDs as [|k rest IH]; intros keyList; simpl.
  - intros [= <-]. exists []. by rewrite app_nil_r.
  - destruct (trustedKeys c !! k) as [key|] eqn:Hk; [|discriminate].
    intros H. apply IH in H as (keys & -> & Hkeys).
    exists (key :: keys). split; [by rewrite <- app_assoc|]. by constructor.
Qed.

(** What a successful [GenerateCommitments] has done (lines 201-237): the
    commitments are gabi's for the keyshare secret of the user the token
    was verified for and for the trusted keys of the requested identifiers,
    in the order of the request; the commit-id is the next 8 bytes of
    entropy read little-endian, a [uint64]; the commit secret is stored
    under it and no other pending commit and no challenge is touched. *)
Theorem GenerateCommitments_success
    (w w' : World) (now : Z) (secrets : UserSecrets) (accessToken : string)
    (keyIDs : list PublicKeyIdentifier) (commitments : list ProofPCommitment)
    (cid : Z) :
  GenerateCommitments now secrets accessToken keyIDs w
  = (Ok (commitments, cid), w') ->
  exists keys s commitSecret rest,
    Forall2 (fun k key => trustedKeys (core w) !! k = Some key) keyIDs keys /\
    verifyAccess (core w) now secrets accessToken = Ok s /\
    NewKeyshareCommitments (KeyshareSecret s) keys (entropy w)
    = Ok (commitSecret, commitments, rest) /\
    cid = LittleEndian (take 8 rest) /\
    0 <= cid < 2 ^ 64 /\
    commitmentData (core w') !! cid = Some commitSecret /\
    (forall cid', cid' <> cid ->
       commitmentData (core w') !! cid' = commitmentData (core w) !! cid') /\
    authChallenges (core w') = authChallenges (core w).
Proof.
  unfold GenerateCommitments. unfold_M. destruct w as [c rnd].
  cbn [core entropy].
  destruct (buildKeyList c keyIDs []) as [keyList|] eqn:Hkeys; [|discriminate].
  apply buildKeyList_Ok in Hkeys as (keys & -> & Hkeys).
  destruct (verifyAccess c now secrets accessToken) as [s|] eqn:Hv;
    [|discriminate].
  cbn [app].
  destruct (NewKeyshareCommitments _ _ _) as [[[commitSecret cs] rest]|] eqn:Hc;
    [|discriminate].
  cbn [core entropy].
  destruct (Nat.ltb_spec (length rest) 8) as [|Hlen]; [discriminate|].
  cbn [core entropy].
  intros [= <- <- <-]. exists keys, s, commitSecret, rest. cbn.
  split; [exact Hkeys|]. split; [reflexivity|]. split; [exact Hc|].
  split; [reflexivity|].
  split; [apply LittleEndian_uint64; rewrite length_take; lia|].
  split; [apply lookup_insert_eq|].
  split; [|reflexivity].
  intros cid' Hne. by apply lookup_insert_ne.
Qed.

(** The checks of [GenerateResponse] read the configuration only. *)
Lemma validRequest_sameConfig c c' now secrets tok ch keyID :
  sameConfig c c' ->
  validRequest c now secrets tok ch keyID
  = validRequest c' now secrets tok ch keyID.
Proof.
  intros Hc. unfold validRequest.
  rewrite (verifyAccess_sameConfig c c') by exact Hc.
  destruct Hc as (_ & _ & _ & _ & _ & ->). reflexivity.
Qed.

(** Sessions are independent (lines 231-234 and 256-260): two commit-ids
    issued one after the other, if they differ, are both pending, and each
    is answered from its own commit, here in the reverse order of their
    issue. *)
Theorem pending_sessions_are_independent
    (w0 w1 w2 : World)
    (now1 now2 : Z) (secrets1 secrets2 : UserSecrets) (tok1 tok2 : string)
    (keyIDs1 keyIDs2 : list PublicKeyIdentifier)
    (cs1 cs2 : list ProofPCommitment) (cid1 cid2 : Z)
    (nowa nowb : Z) (secretsa secretsb : UserSecrets) (toka tokb : string)
    (cha chb : Z) (keya keyb : PublicKeyIdentifier) :
  GenerateCommitments now1 secrets1 tok1 keyIDs1 w0 = (Ok (cs1, cid1), w1) ->
  GenerateCommitments now2 secrets2 tok2 keyIDs2 w1 = (Ok (cs2, cid2), w2) ->
  cid1 <> cid2 ->
  validRequest (core w2) nowa secretsa toka cha keya = true ->
  validRequest (core w2) nowb secretsb tokb chb keyb = true ->
  let ra := GenerateResponse nowa secretsa toka cid2 cha keya w2 in
  let rb := GenerateResponse nowb secretsb tokb cid1 chb keyb ra.2 in
  exists commit1 commit2 sa sb ka kb,
    commitmentData (core w2) !! cid1 = Some commit1 /\
    commitmentData (core w2) !! cid2 = Some commit2 /\
    ra.1 = responseJWT (core w2) nowa sa commit2 cha ka /\
    rb.1 = responseJWT (core w2) nowb sb commit1 chb kb /\
    commitmentData (core rb.2) !! cid1 = None /\
    commitmentData (core rb.2) !! cid2 = None.
Proof.
  intros H1 H2 Hne Hva Hvb ra rb.
  apply GenerateCommitments_Ok in H1 as (commit1 & Hs1 & _).
  apply GenerateCommitments_Ok in H2 as (commit2 & Hs2 & _).
  assert (commitmentData (core w2) !! cid2 = Some commit2) as Hc2
    by (rewrite Hs2; apply lookup_insert_eq).
  assert (commitmentData (core w2) !! cid1 = Some commit1) as Hc1.
  { rewrite Hs2, lookup_insert_ne by congruence.
    rewrite Hs1. apply lookup_insert_eq. }
  destruct (GenerateResponse_valid nowa secretsa toka cid2 cha keya w2 Hva)
    as (sa & ka & _ & _ & Hra).
  rewrite Hc2 in Hra.
  assert (sameConfig (core w2) (core ra.2)) as Hcfg.
  { subst ra. rewrite Hra. by repeat split. }
  rewrite (validRequest_sameConfig _ _ _ _ _ _ _ Hcfg) in Hvb.
  destruct (GenerateResponse_valid nowb secretsb tokb cid1 chb keyb ra.2 Hvb)
    as (sb & kb & _ & _ & Hrb).
  assert (commitmentData (core ra.2) !! cid1 = Some commit1) as Hc1'.
  { subst ra. rewrite Hra. cbn. by rewrite lookup_delete_ne by congruence. }
  rewrite Hc1' in Hrb.
  exists commit1, commit2, sa, sb, ka, kb.
  split; [exact Hc1|]. split; [exact Hc2|].
  split; [subst ra; by rewrite Hra|].
  split.
  { subst rb. rewrite Hrb. cbn [fst]. subst ra. rewrite Hra. reflexivity. }
  subst rb. rewrite Hrb. cbn. split; [apply lookup_delete_eq|].
  rewrite lookup_delete_ne by congruence.
  subst ra. rewrite Hra. cbn. apply lookup_delete_eq.
Qed.

(** The guard of [GenerateResponse] (line 242) in terms of the value of
    the challenge: the challenges refused with [ErrInvalidChallenge] are
    the negative ones and those from [2^Lh] on; a challenge in
    [[0, 2^Lh)] gets past the guard, so that an unknown key is reported as
    [ErrKeyNotFound] and a stored commit is answered with that
    challenge. *)
Theorem GenerateResponse_challenge_range
    (w : World) (now : Z) (secrets : UserSecrets) (accessToken : string)
    (cid ch : Z) (keyID : PublicKeyIdentifier) :
  (ch < 0 \/ 2 ^ Z.of_N Lh <= ch ->
   GenerateResponse now secrets accessToken cid ch keyID w
   = (Err ErrInvalidChallenge, w)) /\
  (0 <= ch < 2 ^ Z.of_N Lh ->
   (trustedKeys (core w) !! keyID = None ->
    GenerateResponse now secrets accessToken cid ch keyID w
    = (Err ErrKeyNotFound, w)) /\
   (forall key s commit,
      trustedKeys (core w) !! keyID = Some key ->
      verifyAccess (core w) now secrets accessToken = Ok s ->
      commitmentData (core w) !! cid = Some commit ->
      GenerateResponse now secrets accessToken cid ch keyID w
      = (responseJWT (core w) now s commit ch key, fetched cid w))).
Proof.
  assert (0 <= Z.of_N Lh) as HLh by lia.
  split.
  - intros Hbad. unfold GenerateResponse. unfold_M.
    assert (Z.ltb (Z.of_N Lh) (BitLen ch) || Z.ltb ch 0 = true) as ->;
      [|reflexivity].
    apply orb_true_iff. destruct Hbad as [Hneg|Hbig].
    + right. by apply Z.ltb_lt.
    + left. apply Z.ltb_lt.
      destruct (Z_lt_le_dec (Z.of_N Lh) (BitLen ch)) as [|Hle]; [assumption|].
      assert (0 <= ch) as Hpos.
      { pose proof (Z.pow_pos_nonneg 2 (Z.of_N Lh)). lia. }
      apply (BitLen_le_iff ch (Z.of_N Lh) Hpos HLh) in Hle. lia.
  - intros [Hpos Hlt].
    assert (Z.ltb (Z.of_N Lh) (BitLen ch) || Z.ltb ch 0 = false) as Hguard.
    { apply orb_false_iff. split; apply Z.ltb_ge; [|lia].
      by apply BitLen_le_iff. }
    unfold GenerateResponse, fetched, responseJWT. unfold_M.
    rewrite Hguard. split.
    + by intros ->.
    + intros key s commit -> -> ->. reflexivity.
Qed.

(** One call keeps the stores in shape. *)
Lemma step_wellFormed call w :
  wellFormedStores w -> wellFormedStores (step call w).2.
Proof.
  unfold wellFormedStores, map_Forall. intros [Hch Hcm].
  destruct w as [c rnd]. cbn [core] in Hch, Hcm.
  destruct call; simpl;
    unfold serve, NewUserSecrets, ValidateAuth, ChangePin,
      GenerateCommitments, GenerateResponse, GenerateChallenge,
      SetUserPublicKey, verifyChallengeResponse, challenge,
      encryptUserSecrets;
    unfold_M; simpl;
    repeat (case_scrutinee; simpl in *; try (split; assumption));
    (split; intros k x Hk;
     repeat match goal with
            | H : delete _ _ !! _ = Some _ |- _ =>
                apply lookup_delete_Some in H as [? ?]
            | H : <[_ := _]> _ !! _ = Some _ |- _ =>
                apply lookup_insert_Some in H as [[? ?]|[? ?]]
            end;
     subst; eauto;
     repeat match goal with
            | H : (_ <? _)%nat = false |- _ => apply Nat.ltb_ge in H
            end;
     first [ rewrite length_take; lia
           | apply LittleEndian_uint64; rewrite length_take; lia ]).
Qed.

(** The stores keep their shape: if every stored challenge has 32 bytes
    and every commit-id is a [uint64], the same holds after any sequence of
    calls. *)
Theorem stores_stay_well_formed (calls : list Call) (w : World) :
  wellFormedStores w -> wellFormedStores (run calls w).2.
Proof.
  revert w. induction calls as [|call calls IH]; intros w Hw; simpl.
  - exact Hw.
  - apply IH. by apply step_wellFormed.
Qed.

End ProofFacts.

(* ===================================================================== *)
(** * The further properties on concrete runs                             *)
(* ===================================================================== *)

Section MoreRuns.

#[local] Existing Instance Toy.Env.



(** A token signed by the server, valid at 1100, with the token-id of the
    blob but without [exp]. *)
Lemma verifyAccess_requires_exp_witness :
  let c := Scenario.config in
  let jwt := Scenario.noExpJWT in
  let tok := Scenario.noExpToken in
  let ss := Toy.toy_signingString tok in
  let sg := Toy.sign 77 ss in
  (ParseUnverified jwt = Some (mkParsed tok ss sg) /\
   Method tok = SigningMethodRS256 /\
   Verify SigningMethodRS256 ss sg (RSAKey (rsa_Public (jwtPrivateKey c)))
   = true /\
   Valid (Claims tok) 1100 = true /\
   Claims tok !! "exp" = None) /\
  verifyAccess c 1100 Scenario.keyedBlob jwt = Err ErrExpiredJWT /\
  ValidateJWT c 1100 Scenario.keyedBlob jwt = Err ErrExpiredJWT.
Proof.
  intros c jwt tok ss sg.
  assert (ParseUnverified jwt = Some (mkParsed tok ss sg)) as H1
    by (vm_compute; reflexivity).
  assert (Method tok = SigningMethodRS256) as H2 by reflexivity.
  assert (Verify SigningMethodRS256 ss sg
            (RSAKey (rsa_Public (jwtPrivateKey c))) = true) as H3
    by (vm_compute; reflexivity).
  assert (Valid (Claims tok) 1100 = true) as H4 by (vm_compute; reflexivity).
  assert (Claims tok !! "exp" = None) as H5 by (vm_compute; reflexivity).
  split; [exact (conj H1 (conj H2 (conj H3 (conj H4 H5))))|].
  exact (verifyAccess_requires_exp c 1100 Scenario.keyedBlob jwt tok ss sg
           H1 H2 H3 H4 (or_introl H5)).
Defined.


(** A challenge is issued to the user with a client key and answered. *)
Lemma issued_challenge_is_the_one_checked_witness :
  let w0 := Scenario.start in
  let b := Scenario.keyedBlob in
  let s := Scenario.keyedUser in
  let ch := Scenario.value [] (GenerateChallenge b) w0 in
  let w1 := Scenario.after (GenerateChallenge b) w0 in
  (GenerateChallenge b w0 = (Ok ch, w1) /\
   decryptUserSecretsIfPinOK (core w1) b "1234" = Ok s) /\
  length ch = 32%nat /\
  authChallenges (core w1) !! string_of_bytes (ID s) = Some ch /\
  (ValidateAuth 1100 b (Scenario.answer ch "1234") "1234" w1).1
  = authJWT (core w1) 1100 s /\
  (exists e, (ValidateAuth 1100 b [] "1234" w1).1 = Err e).
Proof.
  intros w0 b s ch w1.
  assert (GenerateChallenge b w0 = (Ok ch, w1)) as H1
    by (vm_compute; reflexivity).
  assert (decryptUserSecretsIfPinOK (core w1) b "1234" = Ok s) as H2
    by (vm_compute; reflexivity).
  split; [exact (conj H1 H2)|].
  destruct (issued_challenge_is_the_one_checked w0 w1 b ch 1100
              (Scenario.answer ch "1234") "1234" s H1 H2)
    as (Hlen & Hst & Hgood & _).
  destruct (issued_challenge_is_the_one_checked w0 w1 b ch 1100
              [] "1234" s H1 H2) as (_ & _ & Hbad & _).
  split; [exact Hlen|]. split; [exact Hst|].
  split.
  - rewrite Hgood. vm_compute. reflexivity.
  - rewrite Hbad. vm_compute. eexists. reflexivity.
Defined.

(** The PIN change of the user with a client key. *)
Lemma ChangePin_authenticates_the_request_witness :
  let w := Scenario.start in
  let b := Scenario.keyedBlob in
  let call := ChangePin 1100 b Scenario.changePinJWT in
  (call w = (Ok (Scenario.value [] call w), Scenario.after call w) /\
   decryptUserSecrets (core w) b = Ok Scenario.keyedUser) /\
  exists pk p oldpin,
    PublicKey Scenario.keyedUser = Some pk /\
    ParseUnverified Scenario.changePinJWT = Some p /\
    Verify (Method (parsedToken p)) (signingString p) (signature p)
      (ECDSAKey pk) = true /\
    Valid (Claims (parsedToken p)) 1100 = true /\
    stringField (Claims (parsedToken p)) "oldpin" = Some oldpin /\
    verifyPin Scenario.keyedUser oldpin = Ok tt.
Proof.
  intros w b call.
  assert (call w = (Ok (Scenario.value [] call w), Scenario.after call w))
    as H1 by (vm_compute; reflexivity).
  assert (decryptUserSecrets (core w) b = Ok Scenario.keyedUser) as H2
    by (vm_compute; reflexivity).
  split; [exact (conj H1 H2)|].
  exact (ChangePin_authenticates_the_request w _ 1100 b _
           Scenario.changePinJWT Scenario.keyedUser H1 H2).
Defined.

Lemma ChangePin_switches_the_PIN_witness :
  let w := Scenario.start in
  let b := Scenario.keyedBlob in
  let call := ChangePin 1100 b Scenario.changePinJWT in
  let b' := Scenario.value [] call w in
  let w' := Scenario.after call w in
  let p := mkParsed Scenario.changePinToken
             (Toy.toy_signingString Scenario.changePinToken)
             (Toy.sign 5 (Toy.toy_signingString Scenario.changePinToken)) in
  (call w = (Ok b', w') /\
   decryptUserSecrets (core w) b = Ok Scenario.keyedUser /\
   ParseUnverified Scenario.changePinJWT = Some p /\
   stringField (Claims (parsedToken p)) "newpin" = Some "4321" /\
   pinHash "1234" <> pinHash "4321") /\
  is_Ok (decryptUserSecretsIfPinOK (core w') b' "4321") = true /\
  decryptUserSecretsIfPinOK (core w') b' "1234" = Err ErrInvalidPin.
Proof.
  intros w b call b' w' p.
  assert (call w = (Ok b', w')) as H1 by (vm_compute; reflexivity).
  assert (decryptUserSecrets (core w) b = Ok Scenario.keyedUser) as H2
    by (vm_compute; reflexivity).
  assert (ParseUnverified Scenario.changePinJWT = Some p) as H3
    by (vm_compute; reflexivity).
  assert (stringField (Claims (parsedToken p)) "newpin" = Some "4321") as H4
    by (vm_compute; reflexivity).
  assert (pinHash "1234" <> pinHash "4321") as H5
    by (vm_compute; discriminate).
  split; [exact (conj H1 (conj H2 (conj H3 (conj H4 H5))))|].
  destruct (ChangePin_switches_the_PIN w w' 1100 b b' Scenario.changePinJWT
              Scenario.keyedUser p "4321" H1 H2 H3 H4)
    as (_ & s' & Hnew & _ & _ & _ & _ & Hold).
  split; [by rewrite Hnew|exact (Hold "1234" H5)].
Defined.

(** The legacy user cannot change the PIN through [ChangePin]. *)
Lemma ChangePin_needs_a_client_key_witness :
  let w := Scenario.start in
  let b := Scenario.legacyBlob in
  (decryptUserSecrets (core w) b = Ok Scenario.legacyUser /\
   PublicKey Scenario.legacyUser = None) /\
  exists e, ChangePin 1100 b Scenario.changePinJWT w = (Err e, w).
Proof.
  intros w b.
  assert (decryptUserSecrets (core w) b = Ok Scenario.legacyUser) as H1
    by (vm_compute; reflexivity).
  assert (PublicKey Scenario.legacyUser = None) as H2 by reflexivity.
  split; [exact (conj H1 H2)|].
  exact (ChangePin_needs_a_client_key w 1100 b Scenario.changePinJWT
           Scenario.legacyUser H1 H2).
Defined.

(** The legacy user registers a client key; a second registration with
    the correct PIN is refused, a challenge can be issued, and the PIN
    alone no longer signs the user in. *)
Lemma public_key_registration_is_one_shot_witness :
  let w := Scenario.start in
  let b := Scenario.legacyBlob in
  let pk := Scenario.clientKey in
  let call := SetUserPublicKey 1100 b "1234" (Some pk) in
  let jwtt := (Scenario.value ("", []) call w).1 in
  let b' := (Scenario.value ("", []) call w).2 in
  let w' := Scenario.after call w in
  let calls := [CallValidateJWT 1101 b' jwtt] in
  let w'' := (run calls w').2 in
  (call w = (Ok (jwtt, b'), w') /\
   is_Ok (decryptUserSecretsIfPinOK (core w'') b' "1234") = true) /\
  SetUserPublicKey 1102 b' "1234" (Some pk) w''
  = (Err (ErrOther "user already has public key"), w'').
Proof.
  intros w b pk call jwtt b' w' calls w''.
  assert (call w = (Ok (jwtt, b'), w')) as H1 by (vm_compute; reflexivity).
  assert (is_Ok (decryptUserSecretsIfPinOK (core w'') b' "1234") = true)
    as H2 by (vm_compute; reflexivity).
  split; [exact (conj H1 H2)|].
  exact (proj2 (public_key_registration_is_one_shot w w' 1100 1102 b b'
                  "1234" "1234" jwtt pk (Some pk) calls H1) H2).
Defined.

Lemma registration_switches_to_challenge_response_witness :
  let w := Scenario.start in
  let b := Scenario.legacyBlob in
  let s := Scenario.legacyUser in
  let pk := Scenario.clientKey in
  let call := SetUserPublicKey 1100 b "1234" (Some pk) in
  let jwtt := (Scenario.value ("", []) call w).1 in
  let b' := (Scenario.value ("", []) call w).2 in
  let w' := Scenario.after call w in
  let calls := [CallValidateJWT 1101 b' jwtt] in
  let w'' := (run calls w').2 in
  (call w = (Ok (jwtt, b'), w') /\
   decryptUserSecrets (core w) b = Ok s /\
   (32 <= length (entropy w''))%nat /\
   authChallenges (core w'') !! string_of_bytes (ID s) = None /\
   verifyPin s "1234" = Ok tt) /\
  (GenerateChallenge b' w'').1 = Ok (take 32 (entropy w'')) /\
  (ValidateAuth 1102 b' [] "1234" w'').1 = Err ErrChallengeResponseRequired.
Proof.
  intros w b s pk call jwtt b' w' calls w''.
  assert (call w = (Ok (jwtt, b'), w')) as H1 by (vm_compute; reflexivity).
  assert (decryptUserSecrets (core w) b = Ok s) as H2
    by (vm_compute; reflexivity).
  assert (32 <= length (entropy w''))%nat as H3 by (vm_compute; lia).
  assert (authChallenges (core w'') !! string_of_bytes (ID s) = None) as H4
    by (vm_compute; reflexivity).
  assert (verifyPin s "1234" = Ok tt) as H5 by (vm_compute; reflexivity).
  split; [exact (conj H1 (conj H2 (conj H3 (conj H4 H5))))|].
  destruct (registration_switches_to_challenge_response w w' 1100 1102 b b'
              "1234" "1234" jwtt pk [] s calls H1 H2) as [Hgen Hauth].
  split; [exact (Hgen H3)|exact (Hauth H4 H5)].
Defined.

(** A user is enrolled with the PIN 1234 and no client key. *)
Lemma NewUserSecrets_round_trip_witness :
  let w := Scenario.start in
  let call := NewUserSecrets "1234" None in
  let b := Scenario.value [] call w in
  let w' := Scenario.after call w in
  (call w = (Ok b, w') /\ pinHash "0000" <> pinHash "1234") /\
  is_Ok (decryptUserSecretsIfPinOK (core w') b "1234") = true /\
  decryptUserSecretsIfPinOK (core w') b "0000" = Err ErrInvalidPin.
Proof.
  intros w call b w'.
  assert (call w = (Ok b, w')) as H1 by (vm_compute; reflexivity).
  assert (pinHash "0000" <> pinHash "1234") as H2
    by (vm_compute; discriminate).
  split; [exact (conj H1 H2)|].
  destruct (NewUserSecrets_round_trip w w' "1234" None b H1)
    as (_ & s & Hok & _ & _ & _ & Hbad).
  split; [by rewrite Hok|exact (Hbad "0000" H2)].
Defined.

(** Commitments are requested for the trusted key. *)
Lemma GenerateCommitments_success_witness :
  let w := Scenario.start in
  let b := Scenario.keyedBlob in
  let t := Scenario.minted 1000 Scenario.keyedUser in
  let call := GenerateCommitments 1100 b t [("test.test", 3%N)] in
  let out := Scenario.value ([], 0) call w in
  let w' := Scenario.after call w in
  call w = (Ok (out.1, out.2), w') /\
  0 <= out.2 < 2 ^ 64 /\
  is_Some (commitmentData (core w') !! out.2).
Proof.
  intros w b t call out w'.
  assert (call w = (Ok (out.1, out.2), w')) as H1
    by (vm_compute; reflexivity).
  split; [exact H1|].
  destruct (GenerateCommitments_success w w' 1100 b t [("test.test", 3%N)]
              out.1 out.2 H1)
    as (keys & s & commit & rest & _ & _ & _ & _ & Hrange & Hstored & _).
  split; [exact Hrange|]. by exists commit.
Defined.

(** Two sessions are opened and answered in the reverse order. *)
Lemma pending_sessions_are_independent_witness :
  let w0 := Scenario.start in
  let b := Scenario.keyedBlob in
  let t := Scenario.minted 1000 Scenario.keyedUser in
  let key := ("test.test", 3%N) in
  let call1 := GenerateCommitments 1100 b t [key] in
  let out1 := Scenario.value ([], 0) call1 w0 in
  let w1 := Scenario.after call1 w0 in
  let call2 := GenerateCommitments 1101 b t [key] in
  let out2 := Scenario.value ([], 0) call2 w1 in
  let w2 := Scenario.after call2 w1 in
  let ra := GenerateResponse 1102 b t out2.2 12345678 key w2 in
  let rb := GenerateResponse 1103 b t out1.2 87654321 key ra.2 in
  (call1 w0 = (Ok (out1.1, out1.2), w1) /\
   call2 w1 = (Ok (out2.1, out2.2), w2) /\
   out1.2 <> out2.2 /\
   validRequest (core w2) 1102 b t 12345678 key = true /\
   validRequest (core w2) 1103 b t 87654321 key = true) /\
  is_Ok ra.1 = true /\ is_Ok rb.1 = true /\
  commitmentData (core rb.2) !! out1.2 = None /\
  commitmentData (core rb.2) !! out2.2 = None.
Proof.
  intros w0 b t key call1 out1 w1 call2 out2 w2 ra rb.
  assert (call1 w0 = (Ok (out1.1, out1.2), w1)) as H1
    by (vm_compute; reflexivity).
  assert (call2 w1 = (Ok (out2.1, out2.2), w2)) as H2
    by (vm_compute; reflexivity).
  assert (out1.2 <> out2.2) as H3 by (vm_compute; discriminate).
  assert (validRequest (core w2) 1102 b t 12345678 key = true) as H4
    by (vm_compute; reflexivity).
  assert (validRequest (core w2) 1103 b t 87654321 key = true) as H5
    by (vm_compute; reflexivity).
  split; [exact (conj H1 (conj H2 (conj H3 (conj H4 H5))))|].
  destruct (pending_sessions_are_independent w0 w1 w2 1100 1101 b b t t
              [key] [key] out1.1 out2.1 out1.2 out2.2
              1102 1103 b b t t 12345678 87654321 key key H1 H2 H3 H4 H5)
    as (c1 & c2 & sa & sb & ka & kb & _ & _ & _ & _ & Hg1 & Hg2).
  split; [vm_compute; reflexivity|]. split; [vm_compute; reflexivity|].
  split; [exact Hg1|exact Hg2].
Defined.

(** The challenges -1, 2^256 and 2^256 - 1 on the toy server, whose [Lh]
    is 256. *)
Lemma GenerateResponse_challenge_range_witness :
  let w := Scenario.start in
  let b := Scenario.keyedBlob in
  let unknown := ("test.test", 9%N) in
  (2 ^ Z.of_N Lh <= 2 ^ 256 /\
   0 <= 2 ^ 256 - 1 < 2 ^ Z.of_N Lh /\
   trustedKeys (core w) !! unknown = None) /\
  GenerateResponse 1100 b "fakeauthorization" 7 (2 ^ 256) unknown w
  = (Err ErrInvalidChallenge, w) /\
  GenerateResponse 1100 b "fakeauthorization" 7 (2 ^ 256 - 1) unknown w
  = (Err ErrKeyNotFound, w).
Proof.
  intros w b unknown.
  assert (2 ^ Z.of_N Lh <= 2 ^ 256) as H1 by (vm_compute; discriminate).
  assert (0 <= 2 ^ 256 - 1 < 2 ^ Z.of_N Lh) as H2
    by (split; vm_compute; [discriminate|reflexivity]).
  assert (trustedKeys (core w) !! unknown = None) as H3
    by (vm_compute; reflexivity).
  split; [exact (conj H1 (conj H2 H3))|].
  split.
  - exact (proj1 (GenerateResponse_challenge_range w 1100 b
                    "fakeauthorization" 7 (2 ^ 256) unknown)
             (or_intror H1)).
  - exact (proj1 (proj2 (GenerateResponse_challenge_range w 1100 b
                           "fakeauthorization" 7 (2 ^ 256 - 1) unknown) H2)
             H3).
Defined.

(** The stores after a challenge and a commitment, and after two more
    calls. *)
Lemma stores_stay_well_formed_witness :
  let b := Scenario.keyedBlob in
  let t := Scenario.minted 1000 Scenario.keyedUser in
  let key := ("test.test", 3%N) in
  let w := (run [CallGenerateChallenge b;
                 CallGenerateCommitments 1100 b t [key]] Scenario.start).2 in
  let calls := [CallGenerateCommitments 1101 b t [key];
                CallGenerateChallenge b] in
  wellFormedStores w /\ wellFormedStores (run calls w).2.
Proof.
  intros b t key w calls.
  assert (wellFormedStores w) as H1.
  { apply stores_stay_well_formed. split; apply map_Forall_empty. }
  split; [exact H1|].
  exact (stores_stay_well_formed calls w H1).
Defined.

End MoreRuns.
